(** * GithubManager: ownership verification and pull-request listing

    A shallow embedding of [packages/api/src/driver/github.ts]:
    [parseRepoIdentifier], [getCurrentUser], [getRepo], [verifyOwnership]
    and [getUserPullRequests], with the provider (octokit) and the database
    (drizzle) as explicit effects.

    JavaScript strings are modelled as [string]; the only character the code
    inspects is the ASCII ['/'], which never occurs inside a multi-byte
    encoding, so splitting on it is independent of the encoding. *)

From Stdlib Require Import String Ascii List ZArith Lia Bool Arith.
From Stdlib Require Import DecimalString DecimalNat.
Import ListNotations.
Open Scope string_scope.
Open Scope list_scope.

(** ** JavaScript values used by the driver *)

(** [s.split('/')]: every ['/'] separates two segments, so the result has
    one more segment than the string has slashes and is never empty. *)
Fixpoint split_slash (s : string) : list string :=
  match s with
  | EmptyString => [EmptyString]
  | String c rest =>
      if Ascii.eqb c "/" then EmptyString :: split_slash rest
      else match split_slash rest with
           | seg :: segs => String c seg :: segs
           | [] => [String c EmptyString]
           end
  end.

(** The string contains a ['/']. *)
Fixpoint has_slash (s : string) : bool :=
  match s with
  | EmptyString => false
  | String c rest => Ascii.eqb c "/" || has_slash rest
  end.

(** [parts.join('/')]. *)
Fixpoint join_slash (parts : list string) : string :=
  match parts with
  | [] => EmptyString
  | [x] => x
  | x :: rest => (x ++ "/" ++ join_slash rest)%string
  end.


(** Truthiness of a value that is a string or [undefined]/[null]:
    [!x] holds for [undefined], [null] and the empty string. *)
Definition truthy (x : option string) : bool :=
  match x with
  | None => false
  | Some EmptyString => false
  | Some (String _ _) => true
  end.

(** [x || undefined] on such a value. *)
Definition or_undefined (x : option string) : option string :=
  if truthy x then x else None.

(** ** Errors *)

Inductive TRPCCode : Type :=
| FORBIDDEN
| CONFLICT
| NOT_FOUND
| INTERNAL_SERVER_ERROR.

(** What the driver can throw or let through: a plain [Error], the runtime's
    [TypeError] on a property read of [null]/[undefined], a [TRPCError], and
    the [RequestError] an octokit call rejects with (status and message). *)
Inductive Error : Type :=
| JsError (message : string)
| TypeError (message : string)
| TRPCError (code : TRPCCode) (message : string)
| RequestError (status : Z) (message : string).

Inductive Result (A : Type) : Type :=
| Ok (a : A)
| Err (e : Error).
Arguments Ok {A} a.
Arguments Err {A} e.

(** How a call to the provider settles: with its response, or rejected. *)
Inductive Answer (A : Type) : Type :=
| Resolved (a : A)
| Rejected (status : Z) (message : string).
Arguments Resolved {A} a.
Arguments Rejected {A} status message.

(** [error instanceof Error ? error.message : String(error)]; every error of
    the model is an [Error] instance. *)
Definition error_message (e : Error) : string :=
  match e with
  | JsError m | TypeError m | TRPCError _ m | RequestError _ m => m
  end.

(** ** parseRepoIdentifier (github.ts 31-37) *)

Record RepoIdentifier : Type := mkRepoIdentifier {
  ri_owner : string;
  ri_repo : string
}.

Definition invalid_format : Error :=
  JsError "Invalid repository format. Use: username/repository".

(** [const [owner, repo] = identifier.split('/')]: array destructuring reads
    indices 0 and 1 and ignores the others; a missing index is [undefined]. *)
Definition parseRepoIdentifier (identifier : string) : Result RepoIdentifier :=
  let parts := split_slash identifier in
  let owner := nth_error parts 0 in
  let repo := nth_error parts 1 in
  if negb (truthy owner) || negb (truthy repo) then Err invalid_format
  else
    match owner, repo with
    | Some o, Some r => Ok (mkRepoIdentifier o r)
    | _, _ => Err invalid_format
    end.

(** ** Data exchanged with the provider, the cache and the database *)

(** [data] of [octokit.rest.users.getAuthenticated()]. *)
Record AuthenticatedData : Type := mkAuthenticatedData {
  au_id : N;
  au_login : string
}.

(** What [getCurrentUser] resolves to. *)
Record CurrentUser : Type := mkCurrentUser {
  cu_id : string;
  cu_username : string
}.

Record RepoOwner : Type := mkRepoOwner {
  login : string;
  owner_type : string
}.

(** [data] of [octokit.rest.repos.get]; [null] is [None]. *)
Record ReposGetData : Type := mkReposGetData {
  rg_id : N;
  rg_name : string;
  rg_description : option string;
  rg_html_url : string;
  rg_private : bool;
  rg_owner : RepoOwner
}.

(** [RepoData]: the fields [getRepo] sets, and [owner], which comes with the
    spread [...data]. *)
Record RepoData : Type := mkRepoData {
  rd_id : N;
  rd_name : string;
  rd_description : option string;
  rd_url : string;
  rd_isPrivate : bool;
  rd_owner : RepoOwner
}.

(** [data] of [repos.getCollaboratorPermissionLevel]. *)
Record PermissionData : Type := mkPermissionData {
  permission : string
}.

(** [data] of [orgs.getMembershipForUser]. *)
Record Membership : Type := mkMembership {
  role : string;
  state : string
}.

(** Modelled from the spec: the [Context] type of [./utils] is not part of
    the sources. The caller context carries the database handle and the
    current session's user id; the session may be absent (the driver reads
    it as [ctx.session?.userId] and [ctx.session!.userId]). The database is
    the shared store [DB] below. *)
Record Session : Type := mkSession {
  userId : string
}.

Record Context : Type := mkContext {
  session : option Session
}.

(** Modelled from the spec: the [project] table of [@workspace/db/schema] is
    not part of the sources. A project has an id, an [ownerId] that starts
    unset, and an updated-timestamp; the driver touches no other column. *)
Record Project : Type := mkProject {
  id : string;
  ownerId : option string;
  updatedAt : Z
}.

Record VerificationDetails : Type := mkVerificationDetails {
  verifiedAs : string;
  repoOwner : string;
  repoOwnerType : string;
  reason : option string;
  ownershipType : option string;
  repositoryUrl : option string
}.

(** A row of the [projectClaim] table, with the columns the driver writes;
    an omitted [errorReason] is [None]. *)
Record ProjectClaim : Type := mkProjectClaim {
  projectId : string;
  claim_userId : string;
  success : bool;
  verificationMethod : string;
  verificationDetails : VerificationDetails;
  errorReason : option string
}.

Record DB : Type := mkDB {
  projects : list Project;
  claims : list ProjectClaim
}.

(** What [verifyOwnership] resolves to. *)
Record VerifyResult : Type := mkVerifyResult {
  vr_success : bool;
  vr_project : Project;
  vr_ownershipType : string;
  vr_verifiedAs : string
}.

(** Modelled from the spec: [createCacheKey] of [../utils/cache] is not part
    of the sources. The key is the triple (namespace, entity kind,
    identifier); its serialisation into one string is left out. *)
Record CacheKey : Type := mkCacheKey {
  ck_namespace : string;
  ck_kind : string;
  ck_identifier : string
}.

Definition createCacheKey (namespace kind identifier : string) : CacheKey :=
  mkCacheKey namespace kind identifier.

(** ** Database statements *)

(** [db.insert(projectClaim).values(row)]: the table is append-only. *)
Definition db_insert_claim (d : DB) (row : ProjectClaim) : DB :=
  mkDB (projects d) (claims d ++ [row]).

(** [and(eq(project.id, projectId), isNull(project.ownerId))]. *)
Definition claimable (pid : string) (p : Project) : bool :=
  String.eqb (id p) pid &&
  match ownerId p with None => true | Some _ => false end.

Definition set_owner (o : option string) (now : Z) (p : Project) : Project :=
  mkProject (id p) o now.

(** [db.update(project).set({ownerId, updatedAt}).where(...).returning()]:
    one atomic statement; the rows that match are rewritten and returned as
    rewritten, the others are left as they are. *)
Definition db_update_project (d : DB) (pid : string) (o : option string)
    (now : Z) : DB * list Project :=
  (mkDB (map (fun p => if claimable pid p then set_owner o now p else p)
             (projects d))
        (claims d),
   map (set_owner o now) (filter (claimable pid) (projects d))).

(** ** Asynchronous programs

    An [async] method is a finite tree of awaited calls: each node is one
    call to the provider, the cache or the database, and its continuation
    is what the method does once the call has settled. A provider call
    settles with an [Answer]; the cache answers a lookup with a value or
    nothing, and the two database statements are taken to succeed.
    [console.log] is left out. *)
Inductive Prog (A : Type) : Type :=
| Ret (a : A)
| Throw (e : Error)
| UsersGetAuthenticated (k : Answer AuthenticatedData -> Prog A)
| CacheGet (key : CacheKey) (k : option RepoData -> Prog A)
| CacheSet (key : CacheKey) (value : RepoData) (ttl : Z) (k : Prog A)
| ReposGet (owner repo : string) (k : Answer ReposGetData -> Prog A)
| ReposGetCollaboratorPermissionLevel (owner repo username : string)
    (k : Answer PermissionData -> Prog A)
| OrgsGetMembershipForUser (org username : string)
    (k : Answer Membership -> Prog A)
| DateNow (k : Z -> Prog A)
| DbInsertClaim (row : ProjectClaim) (k : Prog A)
| DbUpdateProject (pid : string) (o : option string) (now : Z)
    (k : list Project -> Prog A).
Arguments Ret {A} a.
Arguments Throw {A} e.
Arguments UsersGetAuthenticated {A} k.
Arguments CacheGet {A} key k.
Arguments CacheSet {A} key value ttl k.
Arguments ReposGet {A} owner repo k.
Arguments ReposGetCollaboratorPermissionLevel {A} owner repo username k.
Arguments OrgsGetMembershipForUser {A} org username k.
Arguments DateNow {A} k.
Arguments DbInsertClaim {A} row k.
Arguments DbUpdateProject {A} pid o now k.

(** Sequencing: [const x = await p; f x]. *)
Fixpoint bind {A B : Type} (p : Prog A) (f : A -> Prog B) : Prog B :=
  match p with
  | Ret a => f a
  | Throw e => Throw e
  | UsersGetAuthenticated k => UsersGetAuthenticated (fun r => bind (k r) f)
  | CacheGet key k => CacheGet key (fun r => bind (k r) f)
  | CacheSet key v ttl k => CacheSet key v ttl (bind k f)
  | ReposGet o r k => ReposGet o r (fun x => bind (k x) f)
  | ReposGetCollaboratorPermissionLevel o r u k =>
      ReposGetCollaboratorPermissionLevel o r u (fun x => bind (k x) f)
  | OrgsGetMembershipForUser o u k =>
      OrgsGetMembershipForUser o u (fun x => bind (k x) f)
  | DateNow k => DateNow (fun t => bind (k t) f)
  | DbInsertClaim row k => DbInsertClaim row (bind k f)
  | DbUpdateProject pid o now k =>
      DbUpdateProject pid o now (fun rows => bind (k rows) f)
  end.

(** [try { p } catch (e) { h e }]. *)
Fixpoint try_catch {A : Type} (p : Prog A) (h : Error -> Prog A) : Prog A :=
  match p with
  | Ret a => Ret a
  | Throw e => h e
  | UsersGetAuthenticated k =>
      UsersGetAuthenticated (fun r => try_catch (k r) h)
  | CacheGet key k => CacheGet key (fun r => try_catch (k r) h)
  | CacheSet key v ttl k => CacheSet key v ttl (try_catch k h)
  | ReposGet o r k => ReposGet o r (fun x => try_catch (k x) h)
  | ReposGetCollaboratorPermissionLevel o r u k =>
      ReposGetCollaboratorPermissionLevel o r u (fun x => try_catch (k x) h)
  | OrgsGetMembershipForUser o u k =>
      OrgsGetMembershipForUser o u (fun x => try_catch (k x) h)
  | DateNow k => DateNow (fun t => try_catch (k t) h)
  | DbInsertClaim row k => DbInsertClaim row (try_catch k h)
  | DbUpdateProject pid o now k =>
      DbUpdateProject pid o now (fun rows => try_catch (k rows) h)
  end.

(** The value of a synchronous call, or what it throws. *)
Definition settle {A : Type} (r : Result A) : Prog A :=
  match r with
  | Ok a => Ret a
  | Err e => Throw e
  end.

(** [await] of a settled call: the response, or the rejection thrown. *)
Definition await {A : Type} (r : Answer A) : Prog A :=
  match r with
  | Resolved a => Ret a
  | Rejected status message => Throw (RequestError status message)
  end.

Declare Scope prog_scope.
Delimit Scope prog_scope with prog.
Notation "x <- p ;; q" := (bind p (fun x => q))
  (at level 61, p at next level, right associativity) : prog_scope.
Notation "' pat <- p ;; q" := (bind p (fun x => match x with pat => q end))
  (at level 61, pat pattern, p at next level, right associativity)
  : prog_scope.
Open Scope prog_scope.

(** ** The world a call runs in *)

(** What the provider and the cache answer, and the clock. The provider is
    asked each question at most once per call of the driver, so an answer
    is a function of the question. *)
Record World : Type := mkWorld {
  users_getAuthenticated : Answer AuthenticatedData;
  cache_get : CacheKey -> option RepoData;
  repos_get : string -> string -> Answer ReposGetData;
  repos_getCollaboratorPermissionLevel :
    string -> string -> string -> Answer PermissionData;
  orgs_getMembershipForUser : string -> string -> Answer Membership;
  date_now : Z
}.

(** The calls and statements a run performs, in order. *)
Inductive LogEntry : Type :=
| CallUsersGetAuthenticated
| CallCacheGet (key : CacheKey)
| CallCacheSet (key : CacheKey) (value : RepoData) (ttl : Z)
| CallReposGet (owner repo : string)
| CallReposGetCollaboratorPermissionLevel (owner repo username : string)
| CallOrgsGetMembershipForUser (org username : string)
| StmtInsertClaim (row : ProjectClaim)
| StmtUpdateProject (pid : string) (o : option string) (now : Z)
    (returned : list Project).

Record State : Type := mkState {
  db : DB;
  log : list LogEntry
}.

Definition logged (s : State) (e : LogEntry) : State :=
  mkState (db s) (log s ++ [e]).

(** Running a program to its end: the outcome and the state it leaves. *)
Fixpoint run {A : Type} (w : World) (p : Prog A) (s : State)
    : Result A * State :=
  match p with
  | Ret a => (Ok a, s)
  | Throw e => (Err e, s)
  | UsersGetAuthenticated k =>
      run w (k (users_getAuthenticated w)) (logged s CallUsersGetAuthenticated)
  | CacheGet key k =>
      run w (k (cache_get w key)) (logged s (CallCacheGet key))
  | CacheSet key v ttl k =>
      run w k (logged s (CallCacheSet key v ttl))
  | ReposGet o r k =>
      run w (k (repos_get w o r)) (logged s (CallReposGet o r))
  | ReposGetCollaboratorPermissionLevel o r u k =>
      run w (k (repos_getCollaboratorPermissionLevel w o r u))
          (logged s (CallReposGetCollaboratorPermissionLevel o r u))
  | OrgsGetMembershipForUser o u k =>
      run w (k (orgs_getMembershipForUser w o u))
          (logged s (CallOrgsGetMembershipForUser o u))
  | DateNow k => run w (k (date_now w)) s
  | DbInsertClaim row k =>
      run w k (mkState (db_insert_claim (db s) row)
                       (log s ++ [StmtInsertClaim row]))
  | DbUpdateProject pid o now k =>
      let '(d, rows) := db_update_project (db s) pid o now in
      run w (k rows) (mkState d (log s ++ [StmtUpdateProject pid o now rows]))
  end.

(** One awaited call of a program: the program that remains and the
    database the call leaves. A finished program takes no step. *)
Definition step {A : Type} (w : World) (p : Prog A) (d : DB)
    : option (Prog A * DB) :=
  match p with
  | Ret _ | Throw _ => None
  | UsersGetAuthenticated k => Some (k (users_getAuthenticated w), d)
  | CacheGet key k => Some (k (cache_get w key), d)
  | CacheSet _ _ _ k => Some (k, d)
  | ReposGet o r k => Some (k (repos_get w o r), d)
  | ReposGetCollaboratorPermissionLevel o r u k =>
      Some (k (repos_getCollaboratorPermissionLevel w o r u), d)
  | OrgsGetMembershipForUser o u k =>
      Some (k (orgs_getMembershipForUser w o u), d)
  | DateNow k => Some (k (date_now w), d)
  | DbInsertClaim row k => Some (k, db_insert_claim d row)
  | DbUpdateProject pid o now k =>
      let '(d', rows) := db_update_project d pid o now in Some (k rows, d')
  end.

(** ** The driver *)

(** Modelled from the spec: [getCached] of [../utils/cache] is not part of
    the sources. On a hit within the time-to-live the stored value is
    returned without invoking the producer; on a miss or expiry the producer
    is invoked, its result stored under the same key and returned; a failure
    of the producer propagates and nothing is cached. Whether a key is hit
    is the cache's answer ([cache_get]). *)
Definition getCached (key : CacheKey) (producer : Prog RepoData) (ttl : Z)
    : Prog RepoData :=
  CacheGet key (fun hit =>
    match hit with
    | Some v => Ret v
    | None => v <- producer ;; CacheSet key v ttl (Ret v)
    end).

(** [data.id.toString()]. *)
Definition toString (n : N) : string :=
  NilEmpty.string_of_uint (N.to_uint n).

(** github.ts 39-48. *)
Definition getCurrentUser : Prog CurrentUser :=
  UsersGetAuthenticated (fun r =>
    data <- await r ;;
    Ret (mkCurrentUser (toString (au_id data)) (au_login data))).

(** github.ts 50-69; [data.description ?? undefined] keeps a description
    and turns [null] into [undefined], both [None] here. *)
Definition getRepo (identifier : string) : Prog RepoData :=
  ri <- settle (parseRepoIdentifier identifier) ;;
  getCached (createCacheKey "github" "repo" identifier)
    (ReposGet (ri_owner ri) (ri_repo ri) (fun r =>
       data <- await r ;;
       Ret (mkRepoData (rg_id data) (rg_name data) (rg_description data)
              (rg_html_url data) (rg_private data) (rg_owner data))))
    (5 * 60).

(** [membership.role === 'admin' && membership.state === 'active']. *)
Definition active_admin (m : Membership) : bool :=
  String.eqb (role m) "admin" && String.eqb (state m) "active".

(** github.ts 203-267: the authorization decision, the pair
    [(isOwner, ownershipType)] the two variables hold at line 269. *)
Definition checkOwnership (ri : RepoIdentifier) (currentUser : CurrentUser)
    (repoData : RepoData) : Prog (bool * string) :=
  if String.eqb (login (rd_owner repoData)) (cu_username currentUser) then
    Ret (true, "repository owner")
  else if String.eqb (owner_type (rd_owner repoData)) "Organization" then
    try_catch
      (ReposGetCollaboratorPermissionLevel (ri_owner ri) (ri_repo ri)
         (cu_username currentUser) (fun r =>
         repoPermissions <- await r ;;
         if String.eqb (permission repoPermissions) "admin" then
           try_catch
             (OrgsGetMembershipForUser (login (rd_owner repoData))
                (cu_username currentUser) (fun r' =>
                membership <- await r' ;;
                if active_admin membership
                then Ret (true, "organization owner")
                else Ret (false, "")))
             (fun orgError => Ret (true, "repository admin"))
         else Ret (false, "")))
      (fun error =>
         try_catch
           (OrgsGetMembershipForUser (login (rd_owner repoData))
              (cu_username currentUser) (fun r' =>
              membership <- await r' ;;
              if active_admin membership
              then Ret (true, "organization owner")
              else Ret (false, "")))
           (fun orgError => Ret (false, "")))
  else Ret (false, "").

(** [ctx.session!.userId]: the assertion is erased at run time, and the
    property read of an absent session throws. *)
Definition session_userId (ctx : Context) : Prog string :=
  match session ctx with
  | Some s => Ret (userId s)
  | None =>
      Throw (TypeError "Cannot read properties of null (reading 'userId')")
  end.

(** [ctx.session?.userId ?? null]. *)
Definition session_userId_or_null (ctx : Context) : option string :=
  match session ctx with
  | Some s => Some (userId s)
  | None => None
  end.

Definition denied_reason (currentUser : CurrentUser) (repoData : RepoData)
    : string :=
  ("User " ++ cu_username currentUser
   ++ " does not have required permissions. Repository owner: "
   ++ login (rd_owner repoData))%string.

Definition denied_message (currentUser : CurrentUser) (repoData : RepoData)
    : string :=
  ("You don't have the required permissions to claim this project. You must be either the repository owner or an organization owner. Current user: "
   ++ cu_username currentUser ++ ", Repository owner: "
   ++ login (rd_owner repoData))%string.

(** The row of github.ts 271-283. *)
Definition denied_claim (projectId uid : string) (currentUser : CurrentUser)
    (repoData : RepoData) : ProjectClaim :=
  mkProjectClaim projectId uid false "github_api"
    (mkVerificationDetails (cu_username currentUser)
       (login (rd_owner repoData)) (owner_type (rd_owner repoData))
       (Some "insufficient_permissions") None None)
    (Some (denied_reason currentUser repoData)).

(** The row of github.ts 308-320. *)
Definition success_claim (projectId uid : string) (ri : RepoIdentifier)
    (currentUser : CurrentUser) (repoData : RepoData) (ownershipType : string)
    : ProjectClaim :=
  mkProjectClaim projectId uid true ownershipType
    (mkVerificationDetails (cu_username currentUser)
       (login (rd_owner repoData)) (owner_type (rd_owner repoData))
       None (Some ownershipType)
       (Some ("https://github.com/" ++ ri_owner ri ++ "/" ++ ri_repo ri)%string))
    None.

Definition already_claimed : Error :=
  TRPCError CONFLICT "Project has already been claimed by another user".

(** github.ts 269-289: the claim is denied. The row's values are computed
    before the insert is issued, so an absent session throws first. *)
Definition deny (ctx : Context) (projectId : string)
    (currentUser : CurrentUser) (repoData : RepoData) : Prog VerifyResult :=
  uid <- session_userId ctx ;;
  DbInsertClaim (denied_claim projectId uid currentUser repoData)
    (Throw (TRPCError FORBIDDEN (denied_message currentUser repoData))).

(** github.ts 293-336: the claim is approved. *)
Definition assign (ctx : Context) (projectId : string) (ri : RepoIdentifier)
    (currentUser : CurrentUser) (repoData : RepoData) (ownershipType : string)
    : Prog VerifyResult :=
  DateNow (fun now =>
  DbUpdateProject projectId (session_userId_or_null ctx) now
    (fun updatedProject =>
       match updatedProject with
       | [] => Throw already_claimed
       | first :: _ =>
           uid <- session_userId ctx ;;
           DbInsertClaim
             (success_claim projectId uid ri currentUser repoData
                ownershipType)
             (Ret (mkVerifyResult true first ownershipType
                     (cu_username currentUser)))
       end)).

(** github.ts 187-336. *)
Definition verifyOwnership (identifier : string) (ctx : Context)
    (projectId : string) : Prog VerifyResult :=
  ri <- settle (parseRepoIdentifier identifier) ;;
  currentUser <- getCurrentUser ;;
  repoData <- getRepo identifier ;;
  decision <- checkOwnership ri currentUser repoData ;;
  let '(isOwner, ownershipType) := decision in
  if negb isOwner then deny ctx projectId currentUser repoData
  else assign ctx projectId ri currentUser repoData ownershipType.

(** ** getUserPullRequests (github.ts 393-545) *)

Inductive StateFilter : Type :=
| open
| closed
| merged
| all.

(** The [options] argument; an omitted field is [None]. *)
Record Options : Type := mkOptions {
  opt_state : option StateFilter;
  opt_limit : option Z
}.

(** [state: 'OPEN' | 'CLOSED' | 'MERGED'] of a node. *)
Inductive NodeState : Type :=
| OPEN
| CLOSED
| MERGED.

Record PRRepository : Type := mkPRRepository {
  nameWithOwner : string;
  repo_url : string;
  isPrivate : bool;
  owner_login : string
}.

(** A node of the GraphQL connection; [null] is [None]. *)
Record Node : Type := mkNode {
  n_id : string;
  n_number : Z;
  n_title : string;
  n_state : NodeState;
  n_isDraft : bool;
  n_createdAt : string;
  n_updatedAt : string;
  n_closedAt : option string;
  n_mergedAt : option string;
  n_url : string;
  n_headRefName : string;
  n_baseRefName : string;
  n_repository : PRRepository
}.

Record UserPullRequestData : Type := mkUserPullRequestData {
  pr_id : string;
  pr_number : Z;
  pr_title : string;
  pr_state : string;
  pr_url : string;
  pr_createdAt : string;
  pr_updatedAt : string;
  pr_closedAt : option string;
  pr_mergedAt : option string;
  pr_isDraft : bool;
  pr_headRefName : string;
  pr_baseRefName : string;
  pr_repository : PRRepository
}.

Record PageInfo : Type := mkPageInfo {
  hasNextPage : bool;
  endCursor : option string
}.

Record PullRequestConnection : Type := mkPullRequestConnection {
  totalCount : Z;
  pageInfo : PageInfo;
  nodes : list Node
}.

(** The GraphQL response; [user] is [null] for an unknown login. *)
Record Response : Type := mkResponse {
  user : option PullRequestConnection
}.

(** [options?.limit || 100]: an omitted limit and the limit 0 are falsy. *)
Definition limit_of (options : option Options) : Z :=
  match options with
  | Some o =>
      match opt_limit o with
      | Some l => if Z.eqb l 0 then 100 else l
      | None => 100
      end
  | None => 100
  end.

(** [options?.state || 'all']. *)
Definition stateFilter_of (options : option Options) : StateFilter :=
  match options with
  | Some o =>
      match opt_state o with
      | Some f => f
      | None => all
      end
  | None => all
  end.

(** [pr.state.toLowerCase()]. *)
Definition toLowerCase (s : NodeState) : string :=
  match s with
  | OPEN => "open"
  | CLOSED => "closed"
  | MERGED => "merged"
  end.

(** github.ts 493-514. *)
Definition formatPR (pr : Node) : UserPullRequestData :=
  mkUserPullRequestData (n_id pr) (n_number pr) (n_title pr)
    (toLowerCase (n_state pr)) (n_url pr) (n_createdAt pr) (n_updatedAt pr)
    (or_undefined (n_closedAt pr)) (or_undefined (n_mergedAt pr))
    (n_isDraft pr) (n_headRefName pr) (n_baseRefName pr) (n_repository pr).

(** github.ts 516-522. *)
Definition keepPR (stateFilter : StateFilter) (pr : UserPullRequestData)
    : bool :=
  match stateFilter with
  | all => true
  | open => String.eqb (pr_state pr) "open"
  | closed => String.eqb (pr_state pr) "closed" && negb (truthy (pr_mergedAt pr))
  | merged => String.eqb (pr_state pr) "merged" || truthy (pr_mergedAt pr)
  end.

(** [xs.slice(0, end)] for an integer [end]: a negative [end] counts from
    the end of the array. *)
Definition slice0 {A : Type} (xs : list A) (e : Z) : list A :=
  if Z.ltb e 0 then firstn (Z.to_nat (Z.max (Z.of_nat (length xs) + e) 0)) xs
  else firstn (Z.to_nat e) xs.

Definition user_not_found (username : string) : Error :=
  TRPCError NOT_FOUND ("GitHub user '" ++ username ++ "' not found")%string.

(** github.ts 535-544: a [TRPCError] is thrown again, anything else is
    wrapped. *)
Definition rethrow (e : Error) : Error :=
  match e with
  | TRPCError _ _ => e
  | _ => TRPCError INTERNAL_SERVER_ERROR
           ("Failed to fetch pull requests: " ++ error_message e)%string
  end.

Section UserPullRequests.

(** [octokit.graphql(query, {username, first, after})]. *)
Variable graphql : string -> Z -> option string -> Answer Response.

Variable username : string.
Variable limit : Z.
Variable stateFilter : StateFilter.

(** The [while] loop of github.ts 445-532, entered with the values of
    [allPRs], [hasNextPage] and [cursor]; one unit of fuel per request.
    [None]: the fuel ran out before the loop ended. *)
Fixpoint fetchLoop (fuel : nat) (allPRs : list UserPullRequestData)
    (more : bool) (cursor : option string)
    : option (Result (list UserPullRequestData)) :=
  if more && Z.ltb (Z.of_nat (length allPRs)) limit then
    match fuel with
    | O => None
    | S fuel' =>
        match
          graphql username
            (Z.min 100 (limit - Z.of_nat (length allPRs))) cursor
        with
        | Rejected status message =>
            Some (Err (RequestError status message))
        | Resolved response =>
            match user response with
            | None => Some (Err (user_not_found username))
            | Some pullRequests =>
                let formattedPRs := map formatPR (nodes pullRequests) in
                let filteredPRs := filter (keepPR stateFilter) formattedPRs in
                let allPRs' := allPRs ++ filteredPRs in
                let more' := hasNextPage (pageInfo pullRequests) in
                let cursor' := endCursor (pageInfo pullRequests) in
                if negb more' || Z.leb limit (Z.of_nat (length allPRs'))
                then Some (Ok allPRs')
                else fetchLoop fuel' allPRs' more' cursor'
            end
        end
    end
  else Some (Ok allPRs).

End UserPullRequests.

(** The method: defaults, the loop from its initial values, the final
    [allPRs.slice(0, limit)], and the [catch] around them. *)
Definition getUserPullRequests
    (graphql : string -> Z -> option string -> Answer Response)
    (username : string) (options : option Options) (fuel : nat)
    : option (Result (list UserPullRequestData)) :=
  let limit := limit_of options in
  let stateFilter := stateFilter_of options in
  match fetchLoop graphql username limit stateFilter fuel [] true None with
  | None => None
  | Some (Ok allPRs) => Some (Ok (slice0 allPRs limit))
  | Some (Err e) => Some (Err (rethrow e))
  end.

(** A provider that holds the pull requests [prs] of every known login,
    newest first, and pages through them: the cursor of a page is the
    number of nodes before its end, in decimal. *)
Definition cursor_offset (cursor : option string) : nat :=
  match cursor with
  | None => 0
  | Some c =>
      match NilEmpty.uint_of_string c with
      | Some d => Nat.of_uint d
      | None => 0
      end
  end.

Definition offset_cursor (n : nat) : option string :=
  Some (NilEmpty.string_of_uint (Nat.to_uint n)).

Definition pagedProvider (known : string -> option (list Node))
    (username : string) (first : Z) (after : option string)
    : Answer Response :=
  match known username with
  | None => Resolved (mkResponse None)
  | Some prs =>
      let start := cursor_offset after in
      let page := firstn (Z.to_nat first) (skipn start prs) in
      let stop := (start + length page)%nat in
      Resolved (mkResponse (Some (mkPullRequestConnection
            (Z.of_nat (length prs))
            (mkPageInfo (Nat.ltb stop (length prs)) (offset_cursor stop))
            page)))
  end.

(** ** Sample pull requests *)

Definition sample_node (i : nat) (st : NodeState) (mergedAt : option string)
    : Node :=
  mkNode (NilEmpty.string_of_uint (Nat.to_uint i)) (Z.of_nat i) "Fix typo" st
    false "2024-01-01T00:00:00Z" "2024-01-02T00:00:00Z" None mergedAt
    "https://github.com/acme/widgets/pull/1" "fix" "main"
    (mkPRRepository "acme/widgets" "https://github.com/acme/widgets" false
       "acme").

(** [n] merged pull requests of [alice]. *)
Definition merged_prs (n : nat) : list Node :=
  map (fun i => sample_node i MERGED (Some "2024-01-03T00:00:00Z")) (seq 0 n).

Definition alice_has (prs : list Node) (username : string)
    : option (list Node) :=
  if String.eqb username "alice" then Some prs else None.

(** The node was in a response to a request for [username]. *)
Definition returned
    (graphql : string -> Z -> option string -> Answer Response)
    (username : string) (n : Node) : Prop :=
  exists first after response pullRequests,
    graphql username first after = Resolved response /\
    user response = Some pullRequests /\
    In n (nodes pullRequests).


(** Requests that suffice to page through what [known] holds for
    [username]: one per node, and one more. *)
Definition enough_fuel (known : string -> option (list Node))
    (username : string) : nat :=
  match known username with
  | Some prs => S (length prs)
  | None => 1
  end.

(** A provider that reports one pull request as merged without a merge
    timestamp. *)
Definition merged_untimed : list Node := [sample_node 0 MERGED None].

(** Scenario E: more pull requests upstream than the limit. *)
Definition scenario_e : option (Result (list UserPullRequestData)) :=
  getUserPullRequests (pagedProvider (alice_has (merged_prs 250))) "alice"
    (Some (mkOptions (Some merged) (Some 50%Z))) 1.


(** What holds of every record the loop accumulates: it passes the filter
    and is the formatted form of a node the provider returned. *)
Definition fetched
    (graphql : string -> Z -> option string -> Answer Response)
    (username : string) (stateFilter : StateFilter)
    (pr : UserPullRequestData) : Prop :=
  keepPR stateFilter pr = true /\
  exists n, pr = formatPR n /\ returned graphql username n.

(** ** Concurrent verifications

    Calls of [verifyOwnership] run concurrently against one database; each
    suspends at its awaited calls, so an interleaving is a sequence of
    single calls ([step]) taken by any of the running programs. *)

Record Thread : Type := mkThread {
  th_world : World;
  th_prog : Prog VerifyResult
}.

Inductive pool_step : DB * list Thread -> DB * list Thread -> Prop :=
| pool_step_at (d d' : DB) (before after : list Thread) (th : Thread)
    (p' : Prog VerifyResult) :
    step (th_world th) (th_prog th) d = Some (p', d') ->
    pool_step (d, before ++ th :: after)
              (d', before ++ mkThread (th_world th) p' :: after).

Inductive reachable : DB * list Thread -> DB * list Thread -> Prop :=
| reachable_here (c : DB * list Thread) : reachable c c
| reachable_next (c1 c2 c3 : DB * list Thread) :
    pool_step c1 c2 -> reachable c2 c3 -> reachable c1 c3.

(** A call as it is issued. *)
Record Call : Type := mkCall {
  call_world : World;
  call_identifier : string;
  call_ctx : Context;
  call_projectId : string
}.

Definition start (c : Call) : Thread :=
  mkThread (call_world c)
    (verifyOwnership (call_identifier c) (call_ctx c) (call_projectId c)).

(** The pool after thread [i] has taken one call, if it can. *)
Fixpoint step_at (i : nat) (d : DB) (ths : list Thread)
    : option (DB * list Thread) :=
  match ths with
  | [] => None
  | th :: rest =>
      match i with
      | O =>
          match step (th_world th) (th_prog th) d with
          | Some (p', d') => Some (d', mkThread (th_world th) p' :: rest)
          | None => None
          end
      | S i' =>
          match step_at i' d rest with
          | Some (d', rest') => Some (d', th :: rest')
          | None => None
          end
      end
  end.

(** The pool after the calls of a schedule, a list of thread indices; an
    index that cannot step is skipped. *)
Fixpoint schedule (sched : list nat) (c : DB * list Thread)
    : DB * list Thread :=
  match sched with
  | [] => c
  | i :: sched' =>
      match step_at i (fst c) (snd c) with
      | Some c' => schedule sched' c'
      | None => schedule sched' c
      end
  end.

(** Where each thread of a pool stands: its result, its error, or
    nothing while it still runs. *)
Definition outcome (th : Thread) : option (Result VerifyResult) :=
  match th_prog th with
  | Ret r => Some (Ok r)
  | Throw e => Some (Err e)
  | _ => None
  end.


(** Project [pid] has been assigned to user [uid]. *)
Definition owned_by (d : DB) (pid uid : string) : Prop :=
  exists p, In p (projects d) /\ id p = pid /\ ownerId p = Some uid.

(** Every success row is backed by the assignment it records. *)
Definition consistent (d : DB) : Prop :=
  forall c, In c (claims d) -> success c = true ->
            owned_by d (projectId c) (claim_userId c).

(** [d'] keeps every assignment of [d]. *)
Definition keeps_owners (d d' : DB) : Prop :=
  forall pid uid, owned_by d pid uid -> owned_by d' pid uid.

(** What a program may still do to a database that keeps the owners of
    [d]: it inserts a success row only for an assignment already made. *)
Fixpoint safe {A : Type} (p : Prog A) (d : DB) : Prop :=
  match p with
  | Ret _ | Throw _ => True
  | UsersGetAuthenticated k => forall r, safe (k r) d
  | CacheGet _ k => forall r, safe (k r) d
  | CacheSet _ _ _ k => safe k d
  | ReposGet _ _ k => forall r, safe (k r) d
  | ReposGetCollaboratorPermissionLevel _ _ _ k => forall r, safe (k r) d
  | OrgsGetMembershipForUser _ _ k => forall r, safe (k r) d
  | DateNow k => forall t, safe (k t) d
  | DbInsertClaim row k =>
      (success row = true -> owned_by d (projectId row) (claim_userId row))
      /\ safe k d
  | DbUpdateProject pid o now k =>
      forall d', keeps_owners d d' ->
        safe (k (snd (db_update_project d' pid o now)))
             (fst (db_update_project d' pid o now))
  end.

(** The invariant of a pool: the database is consistent and every running
    program is safe for it. *)
Definition pool_ok (c : DB * list Thread) : Prop :=
  consistent (fst c) /\ Forall (fun th => safe (th_prog th) (fst c)) (snd c).


(** ** Logs *)

(** A provider call or cache call of the log, as opposed to a statement. *)
Definition is_call (e : LogEntry) : bool :=
  match e with
  | StmtInsertClaim _ | StmtUpdateProject _ _ _ _ => false
  | _ => true
  end.

(** A collaborator-permission or organisation-membership lookup. *)
Definition is_lookup (e : LogEntry) : bool :=
  match e with
  | CallReposGetCollaboratorPermissionLevel _ _ _
  | CallOrgsGetMembershipForUser _ _ => true
  | _ => false
  end.

Definition not_lookup (e : LogEntry) : bool := negb (is_lookup e).

(** Whatever the calls answer, the program logs only entries that
    satisfy [P]. *)
Fixpoint emits {A : Type} (P : LogEntry -> bool) (p : Prog A) : Prop :=
  match p with
  | Ret _ | Throw _ => True
  | UsersGetAuthenticated k =>
      P CallUsersGetAuthenticated = true /\ forall r, emits P (k r)
  | CacheGet key k => P (CallCacheGet key) = true /\ forall r, emits P (k r)
  | CacheSet key v ttl k => P (CallCacheSet key v ttl) = true /\ emits P k
  | ReposGet o r k => P (CallReposGet o r) = true /\ forall x, emits P (k x)
  | ReposGetCollaboratorPermissionLevel o r u k =>
      P (CallReposGetCollaboratorPermissionLevel o r u) = true
      /\ forall x, emits P (k x)
  | OrgsGetMembershipForUser o u k =>
      P (CallOrgsGetMembershipForUser o u) = true /\ forall x, emits P (k x)
  | DateNow k => forall t, emits P (k t)
  | DbInsertClaim row k => P (StmtInsertClaim row) = true /\ emits P k
  | DbUpdateProject pid o now k =>
      forall rows,
        P (StmtUpdateProject pid o now rows) = true /\ emits P (k rows)
  end.

(** [sub] occurs in [s]. *)
Definition names (s sub : string) : Prop :=
  exists before after, s = (before ++ sub ++ after)%string.

(** A provider or cache call other than the two lookups. *)
Definition plain_call (e : LogEntry) : bool := is_call e && not_lookup e.

(** ** Stages of a verification *)

(** The identifier parses to [ri], the caller resolves to [currentUser] and
    the repository to [repoData]; [s2] is the state at github.ts 203. *)
Definition resolves (w : World) (identifier : string) (s : State)
    (ri : RepoIdentifier) (currentUser : CurrentUser) (repoData : RepoData)
    (s2 : State) : Prop :=
  parseRepoIdentifier identifier = Ok ri /\
  exists s1,
    run w getCurrentUser s = (Ok currentUser, s1) /\
    run w (getRepo identifier) s1 = (Ok repoData, s2).

(** Identity or repository resolution fails with [e], leaving [s']. *)
Definition resolution_fails (w : World) (identifier : string) (s : State)
    (e : Error) (s' : State) : Prop :=
  (parseRepoIdentifier identifier = Err e /\ s' = s) \/
  (exists ri, parseRepoIdentifier identifier = Ok ri /\
     (run w getCurrentUser s = (Err e, s') \/
      exists currentUser s1,
        run w getCurrentUser s = (Ok currentUser, s1) /\
        run w (getRepo identifier) s1 = (Err e, s'))).

(** The attempt reaches github.ts 269 with [isOwner] false. *)
Definition denied (w : World) (identifier : string) (s : State)
    (currentUser : CurrentUser) (repoData : RepoData) : Prop :=
  exists ri s2 ty s3,
    resolves w identifier s ri currentUser repoData s2 /\
    run w (checkOwnership ri currentUser repoData) s2 = (Ok (false, ty), s3).

(** The statements among the entries of a log. *)
Definition statements (l : list LogEntry) : list LogEntry :=
  filter (fun e => negb (is_call e)) l.


(** An entry that is not the insert of a failing claim row. *)
Definition not_failing_row (e : LogEntry) : bool :=
  match e with
  | StmtInsertClaim row => success row
  | _ => true
  end.

(** The run from [s] to [s'] inserted [row]. *)
Definition written (s s' : State) (row : ProjectClaim) : Prop :=
  exists l, log s' = log s ++ l /\ In (StmtInsertClaim row) l.


(** ** Sample worlds *)

(** A world where the caller is [caller], the repository (not cached) is
    owned by [owner], and the two lookups answer [perm] and [mem]. *)
Definition sample_world (caller : string) (owner : RepoOwner)
    (perm : Answer PermissionData) (mem : Answer Membership) : World :=
  mkWorld
    (Resolved (mkAuthenticatedData 583231 caller))
    (fun _ => None)
    (fun o r => Resolved (mkReposGetData 1296269 r None
                      ("https://github.com/" ++ o ++ "/" ++ r)%string false
                      owner))
    (fun _ _ _ => perm)
    (fun _ _ => mem)
    1700000000000.

Definition not_found {A : Type} : Answer A := Rejected 404 "Not Found".

Definition acme : RepoOwner := mkRepoOwner "acme" "Organization".

(** The caller owns the repository. *)
Definition world_owner : World :=
  sample_world "octocat" (mkRepoOwner "octocat" "User")
    not_found not_found.

(** Admin collaborator of an organisation's repository; the membership
    lookup fails. *)
Definition world_admin_no_membership : World :=
  sample_world "alice" acme (Resolved (mkPermissionData "admin")) not_found.

(** Not a collaborator, but an active admin of the organisation. *)
Definition world_org_admin : World :=
  sample_world "alice" acme not_found
    (Resolved (mkMembership "admin" "active")).

(** Write collaborator; the membership lookup, if it were made, would
    answer active admin. *)
Definition world_write : World :=
  sample_world "alice" acme (Resolved (mkPermissionData "write"))
    (Resolved (mkMembership "admin" "active")).

(** Unknown to the provider. *)
Definition world_unauthenticated : World :=
  mkWorld (Rejected 401 "Bad credentials") (fun _ => None)
    (fun _ _ => not_found) (fun _ _ _ => not_found)
    (fun _ _ => not_found) 1700000000000.

Definition ctx_u1 : Context := mkContext (Some (mkSession "u1")).
Definition ctx_u2 : Context := mkContext (Some (mkSession "u2")).
Definition ctx_anonymous : Context := mkContext None.

Definition db_unclaimed : DB := mkDB [mkProject "p1" None 0] [].
Definition db_claimed : DB := mkDB [mkProject "p1" (Some "u0") 0] [].

Definition fresh (d : DB) : State := mkState d [].


(** Two concurrent claims of one project by the owner of its repository,
    from two sessions. *)
Definition race_calls : list Call :=
  [mkCall world_owner "octocat/Hello-World" ctx_u1 "p1";
   mkCall world_owner "octocat/Hello-World" ctx_u2 "p1"].

(** Both resolve, then the first updates, the second updates, and the
    first inserts its row. *)
Definition race_schedule : list nat :=
  [0; 1; 0; 1; 0; 1; 0; 1; 0; 1; 0; 1; 0]%nat.


(** ** The other lookups of the driver *)

(** github.ts 71-84. *)
Definition getRepoPermissions (identifier : string) : Prog PermissionData :=
  ri <- settle (parseRepoIdentifier identifier) ;;
  currentUser <- getCurrentUser ;;
  ReposGetCollaboratorPermissionLevel (ri_owner ri) (ri_repo ri)
    (cu_username currentUser) (fun r => await r).

(** github.ts 338-344. *)
Definition getOrgMembership (org username : string) : Prog Membership :=
  OrgsGetMembershipForUser org username (fun r => await r).

(** The three ways a claim is approved. *)
Definition ownership_types : list string :=
  ["repository owner"; "organization owner"; "repository admin"].

(** The success rows of project [pid]. *)
Definition success_rows (pid : string) (d : DB) : list ProjectClaim :=
  filter (fun c => success c && String.eqb (projectId c) pid) (claims d).


(** ** Threads of a race *)

(** The program is about to insert a success row of project [pid]. *)
Definition ticket (pid : string) (p : Prog VerifyResult) : bool :=
  match p with
  | DbInsertClaim row _ => success row && String.eqb (projectId row) pid
  | _ => false
  end.

(** The program has returned success with a project of id [pid]. *)
Definition succeeded (pid : string) (p : Prog VerifyResult) : bool :=
  match p with
  | Ret r => String.eqb (id (vr_project r)) pid
  | _ => false
  end.

(** A program that has not yet got a row from its update: it has not
    returned, it inserts failing rows only, and its update, when it returns
    rows (of the project it names), is followed at once by the insert of one
    success row for that project and the return of a row of that project,
    or by an error. *)
Fixpoint before_update (p : Prog VerifyResult) : Prop :=
  match p with
  | Ret _ => False
  | Throw _ => True
  | UsersGetAuthenticated k => forall r, before_update (k r)
  | CacheGet _ k => forall r, before_update (k r)
  | CacheSet _ _ _ k => before_update k
  | ReposGet _ _ k => forall r, before_update (k r)
  | ReposGetCollaboratorPermissionLevel _ _ _ k =>
      forall r, before_update (k r)
  | OrgsGetMembershipForUser _ _ k => forall r, before_update (k r)
  | DateNow k => forall t, before_update (k t)
  | DbInsertClaim row k => success row = false /\ before_update k
  | DbUpdateProject pid o now k =>
      before_update (k []) /\
      forall rows,
        rows <> [] -> (forall q, In q rows -> id q = pid) ->
        (exists e, k rows = Throw e) \/
        (o <> None /\
         exists row r,
           k rows = DbInsertClaim row (Ret r) /\
           success row = true /\ projectId row = pid /\
           id (vr_project r) = pid)
  end.

(** Where a thread of a race stands: before its update, between a
    fruitful update and its insert, or returned. *)
Definition thread_state (p : Prog VerifyResult) : Prop :=
  before_update p
  \/ (exists row r,
        p = DbInsertClaim row (Ret r) /\ success row = true /\
        id (vr_project r) = projectId row)
  \/ (exists r, p = Ret r).

Definition tickets (pid : string) (ths : list Thread) : nat :=
  length (filter (fun th => ticket pid (th_prog th)) ths).

Definition successes (pid : string) (ths : list Thread) : nat :=
  length (filter (fun th => succeeded pid (th_prog th)) ths).

(** The invariant of a race for project [pid]: success rows and threads
    about to insert one are at most one together, and none while a row of
    the project is without owner; and no more threads have returned
    success than there are success rows. *)
Definition once (pid : string) (c : DB * list Thread) : Prop :=
  Forall (fun th => thread_state (th_prog th)) (snd c) /\
  (tickets pid (snd c) + length (success_rows pid (fst c)) <= 1)%nat /\
  (filter (claimable pid) (projects (fst c)) <> [] ->
   (tickets pid (snd c) + length (success_rows pid (fst c)) = 0)%nat) /\
  (successes pid (snd c) <= length (success_rows pid (fst c)))%nat.


(** A provider that answers as [graphql] does when asked for 1 to 100
    nodes, and rejects every other page size. *)
Definition strict_pages
    (graphql : string -> Z -> option string -> Answer Response)
    (username : string) (first : Z) (after : option string)
    : Answer Response :=
  if Z.leb 1 first && Z.leb first 100 then graphql username first after
  else Rejected 422 "first must be between 1 and 100".

(** The pull requests of a provider's list that pass a filter, formatted,
    in the provider's order. *)
Definition matching (stateFilter : StateFilter) (prs : list Node)
    : list UserPullRequestData :=
  filter (keepPR stateFilter) (map formatPR prs).


(** ** getContributors (github.ts 86-121) *)

(** An entry of [repos.listContributors]; [id], [login] and [avatar_url]
    are optional in the response. *)
Record Contributor : Type := mkContributor {
  c_id : option N;
  c_login : option string;
  c_avatar_url : option string;
  c_contributions : Z
}.

(** [{...c, id: c.id!, username: c.login!, avatarUrl: c.avatar_url}]: the
    entry itself and the three fields; the assertions are erased at run
    time. *)
Record ContributorData : Type := mkContributorData {
  cd_entry : Contributor;
  cd_id : option N;
  cd_username : option string;
  cd_avatarUrl : option string
}.

Definition formatContributor (c : Contributor) : ContributorData :=
  mkContributorData c (c_id c) (c_login c) (c_avatar_url c).

(** What a cached lookup did: its outcome, the pages it asked the provider
    for, in order (a lookup that is not paged asks for page 1), and the key
    and time-to-live it stored its result under, if it stored it. *)
Record Listing (A : Type) : Type := mkListing {
  outcome_of : Result A;
  requested : list Z;
  stored : option (CacheKey * Z)
}.
Arguments mkListing {A} outcome_of requested stored.
Arguments outcome_of {A} l.
Arguments requested {A} l.
Arguments stored {A} l.

Section Contributors.

(** [octokit.rest.repos.listContributors({owner, repo, per_page, page})]. *)
Variable listContributors :
  string -> string -> Z -> Z -> Answer (list Contributor).

Variable owner repo : string.

(** The [while] loop of github.ts 96-110, entered with [hasMore] true and
    the values of [allContributors] and [page]; [requests] are the pages
    asked for so far. One unit of fuel per request. *)
Fixpoint contributorsLoop (fuel : nat) (allContributors : list Contributor)
    (page : Z) (requests : list Z)
    : option (Result (list Contributor) * list Z) :=
  match fuel with
  | O => None
  | S fuel' =>
      match listContributors owner repo 100 page with
      | Rejected status message =>
          Some (Err (RequestError status message), requests ++ [page])
      | Resolved data =>
          let allContributors' := allContributors ++ data in
          let hasMore := Nat.eqb (length data) 100 in
          let page' := (page + 1)%Z in
          if Z.ltb 50 page' then Some (Ok allContributors', requests ++ [page])
          else if hasMore
               then contributorsLoop fuel' allContributors' page'
                      (requests ++ [page])
               else Some (Ok allContributors', requests ++ [page])
      end
  end.

End Contributors.

(** The method: the identifier is parsed, the cache asked (modelled from
    the spec, as for [getRepo]: a hit is returned as it is, a miss runs the
    producer and stores its result, a failure stores nothing), and the
    producer pages through the contributors and formats them. *)
Definition getContributors
    (cached : CacheKey -> option (list ContributorData))
    (listContributors : string -> string -> Z -> Z -> Answer (list Contributor))
    (identifier : string) (fuel : nat)
    : option (Listing (list ContributorData)) :=
  match parseRepoIdentifier identifier with
  | Err e => Some (mkListing (Err e) [] None)
  | Ok ri =>
      let key := createCacheKey "github" "contributors" identifier in
      match cached key with
      | Some v => Some (mkListing (Ok v) [] None)
      | None =>
          match
            contributorsLoop listContributors (ri_owner ri) (ri_repo ri)
              fuel [] 1 []
          with
          | None => None
          | Some (Ok allContributors, requests) =>
              Some (mkListing (Ok (map formatContributor allContributors))
                      requests (Some (key, (60 * 60)%Z)))
          | Some (Err e, requests) => Some (mkListing (Err e) requests None)
          end
      end
  end.

(** Pages 1 to [k]. *)
Definition pages (k : nat) : list Z := map Z.of_nat (seq 1 k).

(** A provider that holds the contributors of every repository it knows
    and serves them in pages of [per_page], counted from 1. *)
Definition pagedContributors
    (known : string -> string -> option (list Contributor))
    (owner repo : string) (per_page page : Z)
    : Answer (list Contributor) :=
  match known owner repo with
  | None => Rejected 404 "Not Found"
  | Some contributors =>
      Resolved (firstn (Z.to_nat per_page)
                  (skipn (Z.to_nat (per_page * (page - 1))) contributors))
  end.

(** [n] contributors. *)
Definition some_contributors (n : nat) : list Contributor :=
  map (fun i => mkContributor (Some (N.of_nat i)) (Some "dev") None 1)
      (seq 0 n).

Definition acme_widgets_has (contributors : list Contributor)
    (owner repo : string) : option (list Contributor) :=
  if String.eqb owner "acme" && String.eqb repo "widgets"
  then Some contributors else None.

(** ** getUserDetails (github.ts 346-387) *)

(** [data] of [users.getByUsername]; [null] is [None]. *)
Record UserResponse : Type := mkUserResponse {
  u_login : string;
  u_id : N;
  u_avatar_url : string;
  u_name : option string;
  u_company : option string;
  u_blog : option string;
  u_location : option string;
  u_email : option string;
  u_bio : option string;
  u_public_repos : Z;
  u_public_gists : Z;
  u_followers : Z;
  u_following : Z;
  u_created_at : string;
  u_updated_at : string;
  u_html_url : string
}.

Record UserData : Type := mkUserData {
  ud_provider : string;
  ud_login : string;
  ud_id : N;
  ud_avatarUrl : string;
  ud_name : option string;
  ud_company : option string;
  ud_blog : option string;
  ud_location : option string;
  ud_email : option string;
  ud_bio : option string;
  ud_publicRepos : Z;
  ud_publicGists : Z;
  ud_followers : Z;
  ud_following : Z;
  ud_createdAt : string;
  ud_updatedAt : string;
  ud_htmlUrl : string
}.

(** github.ts 353-371; [x ?? undefined] keeps a value and turns [null]
    into [undefined], both [None] here. *)
Definition formatUser (data : UserResponse) : UserData :=
  mkUserData "github" (u_login data) (u_id data) (u_avatar_url data)
    (u_name data) (u_company data) (u_blog data) (u_location data)
    (u_email data) (u_bio data) (u_public_repos data) (u_public_gists data)
    (u_followers data) (u_following data) (u_created_at data)
    (u_updated_at data) (u_html_url data).

(** github.ts 372-383: the [catch] of the producer. *)
Definition userError (username : string) (status : Z) (message : string)
    : Error :=
  if Z.eqb status 404
  then TRPCError NOT_FOUND ("GitHub user '" ++ username ++ "' not found")%string
  else TRPCError INTERNAL_SERVER_ERROR
         ("Failed to fetch GitHub user details: " ++ message)%string.

(** The method: the cache is asked, and on a miss the provider, once. *)
Definition getUserDetails (cached : CacheKey -> option UserData)
    (getByUsername : string -> Answer UserResponse) (username : string)
    : Listing UserData :=
  let key := createCacheKey "github" "user" username in
  match cached key with
  | Some v => mkListing (Ok v) [] None
  | None =>
      match getByUsername username with
      | Resolved data =>
          mkListing (Ok (formatUser data)) [1%Z] (Some (key, (30 * 60)%Z))
      | Rejected status message =>
          mkListing (Err (userError username status message)) [1%Z] None
      end
  end.


(** ** Proof steps for the decision table *)

Ltac decision_fwd :=
  repeat match goal with
         | H : _ /\ _ |- _ => destruct H
         | H : exists _, _ |- _ => destruct H
         | H : _ \/ _ |- _ => destruct H
         | H : In _ _ |- _ => simpl in H
         | H : Resolved _ = Resolved _ |- _ => injection H as H; subst
         | H : False |- _ => contradiction
         | H : _ = _ |- _ => discriminate H
         end.

Ltac decision_leaf :=
  do 3 eexists; split; [reflexivity|];
  split; [|split; [|split; [|split]]]; split; intro;
  decision_fwd; try discriminate; try contradiction;
  try (simpl; tauto);
  try (repeat split; eauto 8; fail).

(** * Properties *)

(** ** Running programs *)

Lemma run_bind {A B : Type} (w : World) (p : Prog A) (f : A -> Prog B) :
  forall s,
    run w (bind p f) s =
    match run w p s with
    | (Ok a, s') => run w (f a) s'
    | (Err e, s') => (Err e, s')
    end.
Proof.
  induction p as [a|e|k IH|key k IH|key v ttl k IH|o r k IH|o r u k IH
                 |o u k IH|k IH|row k IH|pid o now k IH];
    intro s; simpl; auto.
Qed.

Lemma run_try_catch {A : Type} (w : World) (p : Prog A)
    (h : Error -> Prog A) :
  forall s,
    run w (try_catch p h) s =
    match run w p s with
    | (Ok a, s') => (Ok a, s')
    | (Err e, s') => run w (h e) s'
    end.
Proof.
  induction p as [a|e|k IH|key k IH|key v ttl k IH|o r k IH|o r u k IH
                 |o u k IH|k IH|row k IH|pid o now k IH];
    intro s; simpl; auto.
Qed.

Lemma emits_bind {A B : Type} (P : LogEntry -> bool) (p : Prog A)
    (f : A -> Prog B) :
  emits P p -> (forall a, emits P (f a)) -> emits P (bind p f).
Proof.
  intros Hp Hf.
  induction p as [a|e|k IH|key k IH|key v ttl k IH|o r k IH|o r u k IH
                 |o u k IH|k IH|row k IH|pid o now k IH];
    simpl in *; auto;
    try (destruct Hp as [H0 Hk]; split; [exact H0|]; auto).
  intro rows. destruct (Hp rows) as [H0 Hk]. split; auto.
Qed.

Lemma emits_try_catch {A : Type} (P : LogEntry -> bool) (p : Prog A)
    (h : Error -> Prog A) :
  emits P p -> (forall e, emits P (h e)) -> emits P (try_catch p h).
Proof.
  intros Hp Hh.
  induction p as [a|e|k IH|key k IH|key v ttl k IH|o r k IH|o r u k IH
                 |o u k IH|k IH|row k IH|pid o now k IH];
    simpl in *; auto;
    try (destruct Hp as [H0 Hk]; split; [exact H0|]; auto).
  intro rows. destruct (Hp rows) as [H0 Hk]. split; auto.
Qed.

Lemma emits_settle {A : Type} (P : LogEntry -> bool) (r : Result A) :
  emits P (settle r).
Proof. destruct r; exact I. Qed.

Lemma emits_await {A : Type} (P : LogEntry -> bool) (r : Answer A) :
  emits P (await r).
Proof. destruct r; exact I. Qed.

Lemma emits_weaken {A : Type} (P Q : LogEntry -> bool) (p : Prog A) :
  (forall e, P e = true -> Q e = true) -> emits P p -> emits Q p.
Proof.
  intros HPQ.
  induction p as [a|e|k IH|key k IH|key v ttl k IH|o r k IH|o r u k IH
                 |o u k IH|k IH|row k IH|pid o now k IH];
    simpl; auto;
    try (intros [H0 Hk]; split; [apply HPQ; exact H0|]; auto).
  intros Hp rows. destruct (Hp rows) as [H0 Hk]. split; auto.
Qed.

(** The log of a run grows by entries the program emits. *)
Lemma log_grows (P : LogEntry -> bool) (e : LogEntry) (l0 l1 l : list LogEntry) :
  P e = true -> l1 = (l0 ++ [e]) ++ l -> forallb P l = true ->
  exists l', l1 = l0 ++ l' /\ forallb P l' = true.
Proof.
  intros He Hl Hall. exists (e :: l). rewrite Hl, <- app_assoc. simpl.
  rewrite He, Hall. split; reflexivity.
Qed.

Lemma run_emits {A : Type} (P : LogEntry -> bool) (w : World) (p : Prog A) :
  emits P p ->
  forall s, exists l,
    log (snd (run w p s)) = log s ++ l /\ forallb P l = true.
Proof.
  induction p as [a|e|k IH|key k IH|key v ttl k IH|o r k IH|o r u k IH
                 |o u k IH|k IH|row k IH|pid o now k IH];
    simpl; intros Hp s.
  - exists []. rewrite app_nil_r. split; reflexivity.
  - exists []. rewrite app_nil_r. split; reflexivity.
  - destruct Hp as [H0 Hk].
    destruct (IH _ (Hk (users_getAuthenticated w)) (logged s CallUsersGetAuthenticated)) as [l [Hl Hall]].
    eapply log_grows; eauto.
  - destruct Hp as [H0 Hk].
    destruct (IH _ (Hk (cache_get w key)) (logged s (CallCacheGet key))) as [l [Hl Hall]].
    eapply log_grows; eauto.
  - destruct Hp as [H0 Hk].
    destruct (IH Hk (logged s (CallCacheSet key v ttl))) as [l [Hl Hall]].
    eapply log_grows; eauto.
  - destruct Hp as [H0 Hk].
    destruct (IH _ (Hk (repos_get w o r)) (logged s (CallReposGet o r))) as [l [Hl Hall]].
    eapply log_grows; eauto.
  - destruct Hp as [H0 Hk].
    destruct (IH _ (Hk (repos_getCollaboratorPermissionLevel w o r u))
                (logged s (CallReposGetCollaboratorPermissionLevel o r u)))
      as [l [Hl Hall]].
    eapply log_grows; eauto.
  - destruct Hp as [H0 Hk].
    destruct (IH _ (Hk (orgs_getMembershipForUser w o u))
                (logged s (CallOrgsGetMembershipForUser o u)))
      as [l [Hl Hall]].
    eapply log_grows; eauto.
  - destruct (IH _ (Hp (date_now w)) s) as [l [Hl Hall]]. exists l. auto.
  - destruct Hp as [H0 Hk].
    destruct (IH Hk (mkState (db_insert_claim (db s) row)
                             (log s ++ [StmtInsertClaim row])))
      as [l [Hl Hall]].
    eapply log_grows; eauto.
  - set (rows := map (set_owner o now) (filter (claimable pid) (projects (db s)))).
    destruct (Hp rows) as [H0 Hk].
    match goal with
    | |- context [run w (k rows) ?s1] =>
        destruct (IH _ Hk s1) as [l [Hl Hall]]
    end.
    eapply log_grows; eauto.
Qed.

(** A program that emits calls only leaves the database as it is. *)
Lemma run_calls_db {A : Type} (w : World) (p : Prog A) :
  emits is_call p -> forall s, db (snd (run w p s)) = db s.
Proof.
  induction p as [a|e|k IH|key k IH|key v ttl k IH|o r k IH|o r u k IH
                 |o u k IH|k IH|row k IH|pid o now k IH];
    simpl; intros Hp s; auto.
  - destruct Hp as [_ Hk]. rewrite (IH _ (Hk _)). reflexivity.
  - destruct Hp as [_ Hk]. rewrite (IH _ (Hk _)). reflexivity.
  - destruct Hp as [_ Hk]. rewrite (IH Hk). reflexivity.
  - destruct Hp as [_ Hk]. rewrite (IH _ (Hk _)). reflexivity.
  - destruct Hp as [_ Hk]. rewrite (IH _ (Hk _)). reflexivity.
  - destruct Hp as [_ Hk]. rewrite (IH _ (Hk _)). reflexivity.
  - destruct Hp as [H0 _]. discriminate.
  - destruct (Hp []) as [H0 _]. discriminate.
Qed.

(** ** The stages of [verifyOwnership] *)

Lemma emits_getCurrentUser : emits plain_call getCurrentUser.
Proof.
  split; [reflexivity|]. intro r. apply emits_bind.
  - apply emits_await.
  - intro a. exact I.
Qed.

Lemma emits_getRepo (identifier : string) :
  emits plain_call (getRepo identifier).
Proof.
  apply emits_bind; [apply emits_settle|]. intro ri.
  split; [reflexivity|]. intros [v|]; [exact I|].
  apply emits_bind.
  - split; [reflexivity|]. intro r. apply emits_bind; [apply emits_await|].
    intro a. exact I.
  - intro v. split; [reflexivity | exact I].
Qed.

Lemma emits_membership {A : Type} (org username : string)
    (f : Membership -> Prog A) :
  (forall m, emits is_call (f m)) ->
  emits is_call
    (OrgsGetMembershipForUser org username (fun r => m <- await r ;; f m)).
Proof.
  intro Hf. split; [reflexivity|]. intro r.
  apply emits_bind; [apply emits_await | exact Hf].
Qed.

Lemma emits_checkOwnership (ri : RepoIdentifier) (cu : CurrentUser)
    (rd : RepoData) :
  emits is_call (checkOwnership ri cu rd).
Proof.
  unfold checkOwnership.
  destruct (String.eqb _ _); [exact I|].
  destruct (String.eqb _ _); [|exact I].
  apply emits_try_catch.
  - split; [reflexivity|]. intro r.
    apply emits_bind; [apply emits_await|]. intro perms.
    destruct (String.eqb _ _); [|exact I].
    apply emits_try_catch.
    + apply emits_membership. intro m. destruct (active_admin m); exact I.
    + intro e. exact I.
  - intro e. apply emits_try_catch.
    + apply emits_membership. intro m. destruct (active_admin m); exact I.
    + intro e'. exact I.
Qed.

Lemma plain_call_is_call (e : LogEntry) : plain_call e = true -> is_call e = true.
Proof. unfold plain_call. intro H. apply andb_prop in H. tauto. Qed.

Lemma plain_call_not_lookup (e : LogEntry) :
  plain_call e = true -> not_lookup e = true.
Proof. unfold plain_call. intro H. apply andb_prop in H. tauto. Qed.

(** The two lookups of the decision never reject the decision itself:
    every failure inside it is caught. *)
Lemma checkOwnership_total (w : World) (ri : RepoIdentifier)
    (cu : CurrentUser) (rd : RepoData) (s : State) :
  exists decision s', run w (checkOwnership ri cu rd) s = (Ok decision, s').
Proof.
  unfold checkOwnership.
  destruct (String.eqb _ _); [simpl; eauto|].
  destruct (String.eqb _ _); [|simpl; eauto].
  simpl.
  destruct (repos_getCollaboratorPermissionLevel w _ _ _) as [perms|st msg];
    simpl.
  - destruct (String.eqb (permission perms) "admin"); simpl; [|eauto].
    destruct (orgs_getMembershipForUser w _ _) as [m|st msg]; simpl; [|eauto].
    destruct (active_admin m); simpl; eauto.
  - destruct (orgs_getMembershipForUser w _ _) as [m|st' msg']; simpl;
      [|eauto].
    destruct (active_admin m); simpl; eauto.
Qed.

(** [verifyOwnership] stage by stage. *)
Lemma run_verifyOwnership (w : World) (identifier : string) (ctx : Context)
    (pid : string) (s : State) :
  run w (verifyOwnership identifier ctx pid) s =
  match parseRepoIdentifier identifier with
  | Err e => (Err e, s)
  | Ok ri =>
      match run w getCurrentUser s with
      | (Err e, s1) => (Err e, s1)
      | (Ok cu, s1) =>
          match run w (getRepo identifier) s1 with
          | (Err e, s2) => (Err e, s2)
          | (Ok rd, s2) =>
              match run w (checkOwnership ri cu rd) s2 with
              | (Err e, s3) => (Err e, s3)
              | (Ok (isOwner, ty), s3) =>
                  if negb isOwner then run w (deny ctx pid cu rd) s3
                  else run w (assign ctx pid ri cu rd ty) s3
              end
          end
      end
  end.
Proof.
  unfold verifyOwnership. rewrite run_bind.
  destruct (parseRepoIdentifier identifier) as [ri|e]; cbn [settle run];
    [|reflexivity].
  rewrite run_bind.
  destruct (run w getCurrentUser s) as [[cu|e] s1]; [|reflexivity].
  rewrite run_bind.
  destruct (run w (getRepo identifier) s1) as [[rd|e] s2]; [|reflexivity].
  rewrite run_bind.
  destruct (run w (checkOwnership ri cu rd) s2) as [[[isOwner ty]|e] s3];
    [destruct isOwner|]; reflexivity.
Qed.

Lemma run_verifyOwnership_resolved (w : World) (identifier : string)
    (ctx : Context) (pid : string) (s : State) (ri : RepoIdentifier)
    (cu : CurrentUser) (rd : RepoData) (s2 : State) :
  resolves w identifier s ri cu rd s2 ->
  run w (verifyOwnership identifier ctx pid) s =
  match run w (checkOwnership ri cu rd) s2 with
  | (Err e, s3) => (Err e, s3)
  | (Ok (isOwner, ty), s3) =>
      if negb isOwner then run w (deny ctx pid cu rd) s3
      else run w (assign ctx pid ri cu rd ty) s3
  end.
Proof.
  intros [Hp [s1 [Hu Hr]]]. rewrite run_verifyOwnership, Hp, Hu, Hr.
  reflexivity.
Qed.

(** Resolution leaves the database alone and performs no lookup. *)
Lemma resolves_state (w : World) (identifier : string) (s : State)
    (ri : RepoIdentifier) (cu : CurrentUser) (rd : RepoData) (s2 : State) :
  resolves w identifier s ri cu rd s2 ->
  db s2 = db s /\
  exists l, log s2 = log s ++ l /\ forallb plain_call l = true.
Proof.
  intros [_ [s1 [Hu Hr]]].
  pose proof (run_calls_db w getCurrentUser
                (emits_weaken _ _ _ plain_call_is_call emits_getCurrentUser) s)
    as D1.
  pose proof (run_calls_db w (getRepo identifier)
                (emits_weaken _ _ _ plain_call_is_call
                   (emits_getRepo identifier)) s1) as D2.
  destruct (run_emits plain_call w getCurrentUser emits_getCurrentUser s)
    as [l1 [L1 A1]].
  destruct (run_emits plain_call w (getRepo identifier)
              (emits_getRepo identifier) s1) as [l2 [L2 A2]].
  rewrite Hu in D1, L1. rewrite Hr in D2, L2. simpl in *.
  split; [congruence|].
  exists (l1 ++ l2). rewrite L2, L1, app_assoc, forallb_app, A1, A2.
  split; reflexivity.
Qed.

(** ** The conditional update *)

Lemma claimable_spec (pid : string) (p : Project) :
  claimable pid p = true <-> id p = pid /\ ownerId p = None.
Proof.
  unfold claimable. rewrite andb_true_iff, String.eqb_eq.
  destruct (ownerId p); intuition congruence.
Qed.

(** The statement returns exactly the rows with the given id and an unset
    [ownerId], rewritten. *)
Lemma update_returns (d : DB) (pid : string) (o : option string) (now : Z)
    (q : Project) :
  In q (snd (db_update_project d pid o now)) <->
  exists p, In p (projects d) /\ id p = pid /\ ownerId p = None /\
            q = set_owner o now p.
Proof.
  simpl. rewrite in_map_iff. split.
  - intros [p [Hq Hin]]. apply filter_In in Hin. destruct Hin as [Hin Hc].
    apply claimable_spec in Hc. exists p. intuition.
  - intros [p [Hin [Hid [Ho Hq]]]]. exists p. split; [auto|].
    apply filter_In. split; [exact Hin|]. apply claimable_spec. auto.
Qed.

Lemma no_claimable (pid : string) (l : list Project) :
  (forall p, In p l -> id p = pid -> ownerId p <> None) ->
  filter (claimable pid) l = [].
Proof.
  intro H. induction l as [|p l IH]; [reflexivity|]. simpl.
  destruct (claimable pid p) eqn:E.
  - apply claimable_spec in E. destruct E as [Hid Ho].
    exfalso. apply (H p); simpl; auto.
  - apply IH. intros q Hq. apply H. simpl. auto.
Qed.

(** Zero rows matched: the table is as it was. *)
Lemma update_nothing (pid : string) (f : Project -> Project)
    (l : list Project) :
  filter (claimable pid) l = [] ->
  map (fun p => if claimable pid p then f p else p) l = l.
Proof.
  induction l as [|p l IH]; [reflexivity|]. simpl.
  destruct (claimable pid p); [discriminate|].
  intro H. rewrite (IH H). reflexivity.
Qed.

(** An update never touches a row whose [ownerId] is set, and never
    changes an id. *)
Lemma update_keeps_set (d : DB) (pid : string) (o : option string) (now : Z)
    (p : Project) :
  In p (projects d) -> ownerId p <> None ->
  In p (projects (fst (db_update_project d pid o now))).
Proof.
  intros Hin Ho. simpl. apply in_map_iff. exists p. split; [|exact Hin].
  destruct (claimable pid p) eqn:E; [|reflexivity].
  apply claimable_spec in E. tauto.
Qed.

(** With an absent owner to set, the update leaves every [ownerId] as it
    was (unset). *)
Lemma update_null_owner (pid : string) (now : Z) (l : list Project) :
  map (fun p => (id p, ownerId p))
      (map (fun p => if claimable pid p then set_owner None now p else p) l)
  = map (fun p => (id p, ownerId p)) l.
Proof.
  rewrite map_map. apply map_ext_in. intros p _.
  destruct (claimable pid p) eqn:E; [|reflexivity].
  apply claimable_spec in E. destruct E as [_ Ho]. simpl. rewrite Ho.
  reflexivity.
Qed.

(** ** Denial and assignment *)

Lemma run_deny_session (w : World) (ctx : Context) (pid : string)
    (cu : CurrentUser) (rd : RepoData) (sess : Session) (s : State) :
  session ctx = Some sess ->
  run w (deny ctx pid cu rd) s =
  (Err (TRPCError FORBIDDEN (denied_message cu rd)),
   mkState (db_insert_claim (db s) (denied_claim pid (userId sess) cu rd))
           (log s ++ [StmtInsertClaim (denied_claim pid (userId sess) cu rd)])).
Proof.
  intro H. unfold deny, session_userId. rewrite H. reflexivity.
Qed.

Lemma run_deny_no_session (w : World) (ctx : Context) (pid : string)
    (cu : CurrentUser) (rd : RepoData) (s : State) :
  session ctx = None ->
  exists m, run w (deny ctx pid cu rd) s = (Err (TypeError m), s).
Proof.
  intro H. unfold deny, session_userId. rewrite H. simpl. eauto.
Qed.

Lemma run_assign_conflict (w : World) (ctx : Context) (pid : string)
    (ri : RepoIdentifier) (cu : CurrentUser) (rd : RepoData) (ty : string)
    (s : State) :
  filter (claimable pid) (projects (db s)) = [] ->
  run w (assign ctx pid ri cu rd ty) s =
  (Err already_claimed,
   mkState (db s)
     (log s ++ [StmtUpdateProject pid (session_userId_or_null ctx)
                  (date_now w) []])).
Proof.
  intro H. unfold assign. cbn [run]. unfold db_update_project.
  rewrite H. rewrite (update_nothing pid _ _ H). simpl.
  destruct (db s); reflexivity.
Qed.

Lemma run_assign_session (w : World) (ctx : Context) (pid : string)
    (ri : RepoIdentifier) (cu : CurrentUser) (rd : RepoData) (ty : string)
    (sess : Session) (s : State) (p0 : Project) (rest : list Project) :
  session ctx = Some sess ->
  filter (claimable pid) (projects (db s)) = p0 :: rest ->
  let o := Some (userId sess) in
  let now := date_now w in
  let upd := db_update_project (db s) pid o now in
  let row := success_claim pid (userId sess) ri cu rd ty in
  run w (assign ctx pid ri cu rd ty) s =
  (Ok (mkVerifyResult true (set_owner o now p0) ty (cu_username cu)),
   mkState (db_insert_claim (fst upd) row)
     (log s ++ [StmtUpdateProject pid o now (snd upd); StmtInsertClaim row])).
Proof.
  intros Hs Hf. unfold assign, session_userId, session_userId_or_null.
  rewrite Hs. cbn [run]. unfold db_update_project. rewrite Hf. simpl.
  rewrite <- app_assoc. reflexivity.
Qed.

Lemma run_assign_no_session (w : World) (ctx : Context) (pid : string)
    (ri : RepoIdentifier) (cu : CurrentUser) (rd : RepoData) (ty : string)
    (s : State) :
  session ctx = None ->
  exists e,
    fst (run w (assign ctx pid ri cu rd ty) s) = Err e /\
    db (snd (run w (assign ctx pid ri cu rd ty) s))
    = fst (db_update_project (db s) pid None (date_now w)).
Proof.
  intro Hs. unfold assign, session_userId, session_userId_or_null.
  rewrite Hs. cbn [run]. unfold db_update_project.
  destruct (filter (claimable pid) (projects (db s))); simpl; eauto.
Qed.

Lemma checkOwnership_state (w : World) (ri : RepoIdentifier)
    (cu : CurrentUser) (rd : RepoData) (s s3 : State)
    (decision : bool * string) :
  run w (checkOwnership ri cu rd) s = (Ok decision, s3) ->
  db s3 = db s /\ exists l, log s3 = log s ++ l /\ forallb is_call l = true.
Proof.
  intro H.
  pose proof (run_calls_db w _ (emits_checkOwnership ri cu rd) s) as D.
  pose proof (run_emits is_call w _ (emits_checkOwnership ri cu rd) s) as L.
  rewrite H in D, L. simpl in D, L. auto.
Qed.

(** ** Claims about the assignment *)

(** C1: when every row of the project already has an owner, a call that
    passes the ownership checks issues the conditional update (on the given
    project id and an unset ownerId), which returns no row; the call fails
    with CONFLICT, and the database is left exactly as it was: no ownerId
    is overwritten and no claim row is written. *)
Theorem verifyOwnership_conflict_when_owned (w : World) (identifier : string)
    (ctx : Context) (pid : string) (s : State) (ri : RepoIdentifier)
    (cu : CurrentUser) (rd : RepoData) (s2 s3 : State) (ty : string) :
  resolves w identifier s ri cu rd s2 ->
  run w (checkOwnership ri cu rd) s2 = (Ok (true, ty), s3) ->
  (forall p, In p (projects (db s)) -> id p = pid -> ownerId p <> None) ->
  run w (verifyOwnership identifier ctx pid) s =
  (Err already_claimed,
   mkState (db s)
     (log s3 ++ [StmtUpdateProject pid (session_userId_or_null ctx)
                   (date_now w) []])).
Proof.
  intros Hres Hchk Howned.
  rewrite (run_verifyOwnership_resolved _ _ _ _ _ _ _ _ _ Hres), Hchk.
  cbn [negb].
  destruct (resolves_state _ _ _ _ _ _ _ Hres) as [D2 _].
  destruct (checkOwnership_state _ _ _ _ _ _ _ Hchk) as [D3 _].
  assert (E : db s3 = db s) by congruence.
  rewrite run_assign_conflict.
  - rewrite E. reflexivity.
  - rewrite E. apply no_claimable. exact Howned.
Qed.

Lemma verifyOwnership_conflict_when_owned_witness :
  fst (run world_owner (verifyOwnership "octocat/Hello-World" ctx_u2 "p1")
         (fresh db_claimed)) = Err already_claimed
  /\ db (snd (run world_owner
                (verifyOwnership "octocat/Hello-World" ctx_u2 "p1")
                (fresh db_claimed))) = db_claimed.
Proof.
  assert (R : resolves world_owner "octocat/Hello-World" (fresh db_claimed)
                (mkRepoIdentifier "octocat" "Hello-World")
                (mkCurrentUser "583231" "octocat")
                (mkRepoData 1296269 "Hello-World" None
                   "https://github.com/octocat/Hello-World" false
                   (mkRepoOwner "octocat" "User"))
                (snd (run world_owner (getRepo "octocat/Hello-World")
                        (snd (run world_owner getCurrentUser
                                (fresh db_claimed)))))).
  { split; [reflexivity|]. eexists. split; reflexivity. }
  assert (O : forall p, In p (projects (db (fresh db_claimed))) ->
                       id p = "p1" -> ownerId p <> None).
  { intros p [<-|[]] _. discriminate. }
  rewrite (verifyOwnership_conflict_when_owned world_owner
             "octocat/Hello-World" ctx_u2 "p1" (fresh db_claimed) _ _ _ _ _
             "repository owner" R eq_refl O).
  split; reflexivity.
Defined.

(** C7: with no session the call fails, whatever the provider answers and
    whatever the database holds; it writes no claim row and leaves every
    project's ownerId as it was. *)
Theorem verifyOwnership_requires_session (w : World) (identifier : string)
    (pid : string) (s : State) :
  let out := run w (verifyOwnership identifier ctx_anonymous pid) s in
  (exists e, fst out = Err e) /\
  claims (db (snd out)) = claims (db s) /\
  map (fun p => (id p, ownerId p)) (projects (db (snd out)))
  = map (fun p => (id p, ownerId p)) (projects (db s)).
Proof.
  cbv zeta. rewrite run_verifyOwnership.
  destruct (parseRepoIdentifier identifier) as [ri|e]; [|simpl; eauto].
  pose proof (run_calls_db w getCurrentUser
                (emits_weaken _ _ _ plain_call_is_call emits_getCurrentUser) s)
    as D1.
  destruct (run w getCurrentUser s) as [[cu|e] s1]; simpl in D1;
    [|simpl; rewrite D1; eauto].
  pose proof (run_calls_db w (getRepo identifier)
                (emits_weaken _ _ _ plain_call_is_call
                   (emits_getRepo identifier)) s1) as D2.
  destruct (run w (getRepo identifier) s1) as [[rd|e] s2]; simpl in D2;
    [|simpl; rewrite D2, D1; eauto].
  pose proof (run_calls_db w _ (emits_checkOwnership ri cu rd) s2) as D3.
  destruct (run w (checkOwnership ri cu rd) s2) as [[[isOwner ty]|e] s3];
    simpl in D3; [|simpl; rewrite D3, D2, D1; eauto].
  assert (E : db s3 = db s) by congruence.
  destruct isOwner; cbn [negb].
  - destruct (run_assign_no_session w ctx_anonymous pid ri cu rd ty s3
                eq_refl) as [e [He Hd]].
    rewrite He, Hd, E. simpl. split; [eauto|]. split; [reflexivity|].
    apply update_null_owner.
  - destruct (run_deny_no_session w ctx_anonymous pid cu rd s3 eq_refl)
      as [m Hm].
    rewrite Hm. simpl. rewrite E. eauto.
Qed.

(** ** Claims about the authorization decision *)

Lemma emits_assign (ctx : Context) (pid : string) (ri : RepoIdentifier)
    (cu : CurrentUser) (rd : RepoData) (ty : string) :
  emits not_lookup (assign ctx pid ri cu rd ty).
Proof.
  intros now rows. split; [reflexivity|].
  destruct rows as [|first rest]; [exact I|].
  unfold session_userId. destruct (session ctx); simpl; auto.
Qed.

Lemma emits_deny (ctx : Context) (pid : string) (cu : CurrentUser)
    (rd : RepoData) :
  emits not_lookup (deny ctx pid cu rd).
Proof.
  unfold deny, session_userId. destruct (session ctx); simpl; auto.
Qed.

(** An approved claim on a project that still has an unclaimed row, by a
    caller with a session, succeeds. *)
Lemma verifyOwnership_approved (w : World) (identifier : string)
    (ctx : Context) (pid : string) (s : State) (ri : RepoIdentifier)
    (cu : CurrentUser) (rd : RepoData) (s2 s3 : State) (ty : string)
    (sess : Session) (p0 : Project) (rest : list Project) :
  resolves w identifier s ri cu rd s2 ->
  run w (checkOwnership ri cu rd) s2 = (Ok (true, ty), s3) ->
  session ctx = Some sess ->
  filter (claimable pid) (projects (db s)) = p0 :: rest ->
  run w (verifyOwnership identifier ctx pid) s
  = run w (assign ctx pid ri cu rd ty) s3 /\
  fst (run w (verifyOwnership identifier ctx pid) s)
  = Ok (mkVerifyResult true (set_owner (Some (userId sess)) (date_now w) p0)
          ty (cu_username cu)).
Proof.
  intros Hres Hchk Hs Hf.
  rewrite (run_verifyOwnership_resolved _ _ _ _ _ _ _ _ _ Hres), Hchk.
  cbn [negb]. split; [reflexivity|].
  destruct (resolves_state _ _ _ _ _ _ _ Hres) as [D2 _].
  destruct (checkOwnership_state _ _ _ _ _ _ _ Hchk) as [D3 _].
  rewrite (run_assign_session w ctx pid ri cu rd ty sess s3 p0 rest Hs).
  - reflexivity.
  - rewrite D3, D2. exact Hf.
Qed.

(** C4: when the repository owner's login is the caller's login, the
    decision is (true, repository owner) and is reached without any call;
    the whole run performs no collaborator-permission and no
    organisation-membership lookup, and goes on to the assignment. *)
Theorem direct_owner_skips_lookups (w : World) (identifier : string)
    (ctx : Context) (pid : string) (s : State) (ri : RepoIdentifier)
    (cu : CurrentUser) (rd : RepoData) (s2 : State) :
  resolves w identifier s ri cu rd s2 ->
  login (rd_owner rd) = cu_username cu ->
  run w (checkOwnership ri cu rd) s2 = (Ok (true, "repository owner"), s2)
  /\ run w (verifyOwnership identifier ctx pid) s
     = run w (assign ctx pid ri cu rd "repository owner") s2
  /\ exists l,
       log (snd (run w (verifyOwnership identifier ctx pid) s)) = log s ++ l
       /\ forallb not_lookup l = true.
Proof.
  intros Hres Hlogin.
  assert (Hchk : run w (checkOwnership ri cu rd) s2
                 = (Ok (true, "repository owner"), s2)).
  { unfold checkOwnership. rewrite Hlogin, String.eqb_refl. reflexivity. }
  split; [exact Hchk|].
  rewrite (run_verifyOwnership_resolved _ _ _ _ _ _ _ _ _ Hres), Hchk.
  cbn [negb]. split; [reflexivity|].
  destruct (resolves_state _ _ _ _ _ _ _ Hres) as [_ [l1 [L1 A1]]].
  destruct (run_emits not_lookup w _
              (emits_assign ctx pid ri cu rd "repository owner") s2)
    as [l2 [L2 A2]].
  exists (l1 ++ l2). rewrite L2, L1, app_assoc. split; [reflexivity|].
  rewrite forallb_app, A2, andb_true_r.
  rewrite forallb_forall in *. intros e He.
  apply plain_call_not_lookup. auto.
Qed.

Lemma direct_owner_skips_lookups_witness :
  run world_owner (verifyOwnership "octocat/Hello-World" ctx_u1 "p1")
      (fresh db_unclaimed)
  = (Ok (mkVerifyResult true (mkProject "p1" (Some "u1") 1700000000000)
           "repository owner" "octocat"),
     snd (run world_owner (verifyOwnership "octocat/Hello-World" ctx_u1 "p1")
            (fresh db_unclaimed)))
  /\ forallb not_lookup
       (log (snd (run world_owner
                    (verifyOwnership "octocat/Hello-World" ctx_u1 "p1")
                    (fresh db_unclaimed)))) = true.
Proof.
  assert (R : resolves world_owner "octocat/Hello-World" (fresh db_unclaimed)
                (mkRepoIdentifier "octocat" "Hello-World")
                (mkCurrentUser "583231" "octocat")
                (mkRepoData 1296269 "Hello-World" None
                   "https://github.com/octocat/Hello-World" false
                   (mkRepoOwner "octocat" "User"))
                (snd (run world_owner (getRepo "octocat/Hello-World")
                        (snd (run world_owner getCurrentUser
                                (fresh db_unclaimed)))))).
  { split; [reflexivity|]. eexists. split; reflexivity. }
  destruct (direct_owner_skips_lookups world_owner "octocat/Hello-World"
              ctx_u1 "p1" (fresh db_unclaimed) _ _ _ _ R eq_refl)
    as [_ [Hrun _]].
  rewrite Hrun. split; reflexivity.
Defined.

(** C2: in an organisation's repository, a caller who is not the direct
    owner, whose collaborator permission is admin and whose membership
    lookup fails is taken as owner with ownership type repository admin:
    the run goes on to the assignment, never to the denial, and with a
    session and an unclaimed project it succeeds. *)
Theorem admin_permission_fallback (w : World) (identifier : string)
    (ctx : Context) (pid : string) (s : State) (ri : RepoIdentifier)
    (cu : CurrentUser) (rd : RepoData) (s2 : State)
    (perms : PermissionData) (status : Z) (message : string) :
  resolves w identifier s ri cu rd s2 ->
  login (rd_owner rd) <> cu_username cu ->
  owner_type (rd_owner rd) = "Organization" ->
  repos_getCollaboratorPermissionLevel w (ri_owner ri) (ri_repo ri)
    (cu_username cu) = Resolved perms ->
  permission perms = "admin" ->
  orgs_getMembershipForUser w (login (rd_owner rd)) (cu_username cu)
  = Rejected status message ->
  let s3 :=
    logged
      (logged s2
         (CallReposGetCollaboratorPermissionLevel (ri_owner ri) (ri_repo ri)
            (cu_username cu)))
      (CallOrgsGetMembershipForUser (login (rd_owner rd)) (cu_username cu)) in
  run w (checkOwnership ri cu rd) s2 = (Ok (true, "repository admin"), s3)
  /\ run w (verifyOwnership identifier ctx pid) s
     = run w (assign ctx pid ri cu rd "repository admin") s3
  /\ forall sess p0 rest,
       session ctx = Some sess ->
       filter (claimable pid) (projects (db s)) = p0 :: rest ->
       fst (run w (verifyOwnership identifier ctx pid) s)
       = Ok (mkVerifyResult true
               (set_owner (Some (userId sess)) (date_now w) p0)
               "repository admin" (cu_username cu)).
Proof.
  intros Hres Hne Horg Hperm Hadmin Hmem s3.
  assert (Hchk : run w (checkOwnership ri cu rd) s2
                 = (Ok (true, "repository admin"), s3)).
  { unfold checkOwnership.
    apply String.eqb_neq in Hne. rewrite Hne, Horg. simpl.
    rewrite Hperm. simpl. rewrite Hadmin. simpl. rewrite Hmem. reflexivity. }
  split; [exact Hchk|]. split.
  - rewrite (run_verifyOwnership_resolved _ _ _ _ _ _ _ _ _ Hres), Hchk.
    reflexivity.
  - intros sess p0 rest Hs Hf.
    apply (verifyOwnership_approved w identifier ctx pid s ri cu rd s2 s3
             "repository admin" sess p0 rest Hres Hchk Hs Hf).
Qed.

Lemma admin_permission_fallback_witness :
  fst (run world_admin_no_membership
         (verifyOwnership "acme/widgets" ctx_u1 "p1") (fresh db_unclaimed))
  = Ok (mkVerifyResult true (mkProject "p1" (Some "u1") 1700000000000)
          "repository admin" "alice").
Proof.
  assert (R : resolves world_admin_no_membership "acme/widgets"
                (fresh db_unclaimed)
                (mkRepoIdentifier "acme" "widgets")
                (mkCurrentUser "583231" "alice")
                (mkRepoData 1296269 "widgets" None
                   "https://github.com/acme/widgets" false acme)
                (snd (run world_admin_no_membership (getRepo "acme/widgets")
                        (snd (run world_admin_no_membership getCurrentUser
                                (fresh db_unclaimed)))))).
  { split; [reflexivity|]. eexists. split; reflexivity. }
  assert (N : login (rd_owner (mkRepoData 1296269 "widgets" None
                                 "https://github.com/acme/widgets" false acme))
              <> cu_username (mkCurrentUser "583231" "alice")).
  { discriminate. }
  destruct (admin_permission_fallback world_admin_no_membership
              "acme/widgets" ctx_u1 "p1" (fresh db_unclaimed) _ _ _ _
              (mkPermissionData "admin") 404 "Not Found" R N eq_refl eq_refl
              eq_refl eq_refl) as [_ [_ Hok]].
  exact (Hok (mkSession "u1") (mkProject "p1" None 0) [] eq_refl eq_refl).
Defined.

(** C3, as the code has it: in an organisation's repository, for a caller
    who is not the direct owner,
    - when the collaborator-permission lookup fails, the membership lookup
      is made; an active admin is taken as owner with ownership type
      organization owner (and the run goes on to the assignment, which
      succeeds with a session and an unclaimed project); any other answer
      and any failure of the lookup is swallowed and leaves the caller not
      owner;
    - when the lookup answers a level other than admin, no membership
      lookup is made and the caller is not owner. *)
Theorem org_membership_path (w : World) (identifier : string)
    (ctx : Context) (pid : string) (s : State) (ri : RepoIdentifier)
    (cu : CurrentUser) (rd : RepoData) (s2 : State) :
  resolves w identifier s ri cu rd s2 ->
  login (rd_owner rd) <> cu_username cu ->
  owner_type (rd_owner rd) = "Organization" ->
  let permCall :=
    CallReposGetCollaboratorPermissionLevel (ri_owner ri) (ri_repo ri)
      (cu_username cu) in
  let memCall :=
    CallOrgsGetMembershipForUser (login (rd_owner rd)) (cu_username cu) in
  (forall status message,
     repos_getCollaboratorPermissionLevel w (ri_owner ri) (ri_repo ri)
       (cu_username cu) = Rejected status message ->
     let s3 := logged (logged s2 permCall) memCall in
     run w (checkOwnership ri cu rd) s2
     = (Ok match orgs_getMembershipForUser w (login (rd_owner rd))
                   (cu_username cu) with
           | Resolved m =>
               if active_admin m then (true, "organization owner")
               else (false, "")
           | Rejected _ _ => (false, "")
           end, s3)
     /\ forall m,
          orgs_getMembershipForUser w (login (rd_owner rd)) (cu_username cu)
          = Resolved m ->
          role m = "admin" -> state m = "active" ->
          run w (verifyOwnership identifier ctx pid) s
          = run w (assign ctx pid ri cu rd "organization owner") s3
          /\ forall sess p0 rest,
               session ctx = Some sess ->
               filter (claimable pid) (projects (db s)) = p0 :: rest ->
               fst (run w (verifyOwnership identifier ctx pid) s)
               = Ok (mkVerifyResult true
                       (set_owner (Some (userId sess)) (date_now w) p0)
                       "organization owner" (cu_username cu)))
  /\ (forall perms,
        repos_getCollaboratorPermissionLevel w (ri_owner ri) (ri_repo ri)
          (cu_username cu) = Resolved perms ->
        permission perms <> "admin" ->
        run w (checkOwnership ri cu rd) s2
        = (Ok (false, ""), logged s2 permCall)).
Proof.
  intros Hres Hne Horg permCall memCall.
  apply String.eqb_neq in Hne.
  split.
  - intros status message Hperm s3.
    assert (Hchk : run w (checkOwnership ri cu rd) s2
                   = (Ok match orgs_getMembershipForUser w
                                 (login (rd_owner rd)) (cu_username cu) with
                         | Resolved m => if active_admin m
                                         then (true, "organization owner")
                                         else (false, "")
                         | Rejected _ _ => (false, "")
                         end, s3)).
    { unfold checkOwnership. rewrite Hne, Horg. simpl. rewrite Hperm. simpl.
      destruct (orgs_getMembershipForUser w _ _) as [m|st msg]; simpl;
        [destruct (active_admin m)|]; reflexivity. }
    split; [exact Hchk|].
    intros m Hm Hrole Hstate.
    assert (Ha : active_admin m = true).
    { unfold active_admin. rewrite Hrole, Hstate. reflexivity. }
    rewrite Hm, Ha in Hchk. split.
    + rewrite (run_verifyOwnership_resolved _ _ _ _ _ _ _ _ _ Hres), Hchk.
      reflexivity.
    + intros sess p0 rest Hs Hf.
      apply (verifyOwnership_approved w identifier ctx pid s ri cu rd s2 s3
               "organization owner" sess p0 rest Hres Hchk Hs Hf).
  - intros perms Hperm Hlevel.
    apply String.eqb_neq in Hlevel.
    unfold checkOwnership. rewrite Hne, Horg. simpl. rewrite Hperm. simpl.
    rewrite Hlevel. reflexivity.
Qed.

Lemma org_membership_path_witness :
  fst (run world_org_admin (verifyOwnership "acme/widgets" ctx_u1 "p1")
         (fresh db_unclaimed))
  = Ok (mkVerifyResult true (mkProject "p1" (Some "u1") 1700000000000)
          "organization owner" "alice").
Proof.
  assert (R : resolves world_org_admin "acme/widgets" (fresh db_unclaimed)
                (mkRepoIdentifier "acme" "widgets")
                (mkCurrentUser "583231" "alice")
                (mkRepoData 1296269 "widgets" None
                   "https://github.com/acme/widgets" false acme)
                (snd (run world_org_admin (getRepo "acme/widgets")
                        (snd (run world_org_admin getCurrentUser
                                (fresh db_unclaimed)))))).
  { split; [reflexivity|]. eexists. split; reflexivity. }
  assert (N : login (rd_owner (mkRepoData 1296269 "widgets" None
                                 "https://github.com/acme/widgets" false acme))
              <> cu_username (mkCurrentUser "583231" "alice")).
  { discriminate. }
  destruct (org_membership_path world_org_admin "acme/widgets" ctx_u1 "p1"
              (fresh db_unclaimed) _ _ _ _ R N eq_refl) as [Hfail _].
  destruct (Hfail 404%Z "Not Found" eq_refl) as [_ Hadmin].
  destruct (Hadmin (mkMembership "admin" "active") eq_refl eq_refl eq_refl)
    as [_ Hok].
  exact (Hok (mkSession "u1") (mkProject "p1" None 0) [] eq_refl eq_refl).
Defined.

(** C3 as stated fails: a write collaborator who is an active admin of the
    organisation is denied, and the membership lookup is never made. *)
Lemma org_membership_path_counterexample :
  orgs_getMembershipForUser world_write "acme" "alice"
  = Resolved (mkMembership "admin" "active")
  /\ permission (mkPermissionData "write") <> "admin"
  /\ fst (run world_write (verifyOwnership "acme/widgets" ctx_u1 "p1")
            (fresh db_unclaimed))
     = Err (TRPCError FORBIDDEN
              (denied_message (mkCurrentUser "583231" "alice")
                 (mkRepoData 1296269 "widgets" None
                    "https://github.com/acme/widgets" false acme)))
  /\ ~ In (CallOrgsGetMembershipForUser "acme" "alice")
         (log (snd (run world_write
                      (verifyOwnership "acme/widgets" ctx_u1 "p1")
                      (fresh db_unclaimed)))).
Proof.
  split; [reflexivity|]. split; [discriminate|]. split; [reflexivity|].
  simpl. intuition discriminate.
Qed.

(** ** Claims about the denial *)

Lemma resolves_unique (w : World) (identifier : string) (s : State)
    (ri ri' : RepoIdentifier) (cu cu' : CurrentUser) (rd rd' : RepoData)
    (s2 s2' : State) :
  resolves w identifier s ri cu rd s2 ->
  resolves w identifier s ri' cu' rd' s2' ->
  ri = ri' /\ cu = cu' /\ rd = rd' /\ s2 = s2'.
Proof.
  intros [P [s1 [U R]]] [P' [s1' [U' R']]].
  rewrite P in P'. rewrite U in U'. injection P' as <-. injection U' as <- <-.
  rewrite R in R'. injection R' as <- <-. auto.
Qed.

Lemma resolution_fails_not_resolves (w : World) (identifier : string)
    (s : State) (e : Error) (s' : State) (ri : RepoIdentifier)
    (cu : CurrentUser) (rd : RepoData) (s2 : State) :
  resolution_fails w identifier s e s' ->
  resolves w identifier s ri cu rd s2 -> False.
Proof.
  intros [[P _]|[ri' [P [U|[cu' [s1' [U R]]]]]]] [P' [s1 [U' R']]];
    congruence.
Qed.

(** Resolution fails with the parser's error or with the provider's
    rejection, never with a [TRPCError]. *)
Lemma resolution_error_kind (w : World) (identifier : string) (s : State)
    (e : Error) (s' : State) :
  resolution_fails w identifier s e s' ->
  forall code msg, e <> TRPCError code msg.
Proof.
  intros [[P _]|[ri [P [U|[cu [s1 [U R]]]]]]] code msg.
  - unfold parseRepoIdentifier in P.
    destruct (negb _ || negb _); [injection P as <-; discriminate|].
    destruct (nth_error _ 0); [|injection P as <-; discriminate].
    destruct (nth_error _ 1); [discriminate|injection P as <-; discriminate].
  - unfold getCurrentUser in U. simpl in U.
    destruct (users_getAuthenticated w); simpl in U; [discriminate|].
    injection U as <- _. discriminate.
  - unfold getRepo in R. rewrite run_bind, P in R. cbn [settle run] in R.
    unfold getCached in R. cbn [run] in R.
    destruct (cache_get w _); [discriminate|].
    cbn [bind run] in R.
    destruct (repos_get w _ _); simpl in R; [discriminate|].
    injection R as <- _. discriminate.
Qed.

Lemma resolution_fails_state (w : World) (identifier : string) (s : State)
    (e : Error) (s' : State) :
  resolution_fails w identifier s e s' ->
  db s' = db s /\
  exists l, log s' = log s ++ l /\ forallb plain_call l = true.
Proof.
  intros [[P ->]|[ri [P [U|[cu [s1 [U R]]]]]]].
  - split; [reflexivity|]. exists []. rewrite app_nil_r. auto.
  - pose proof (run_calls_db w getCurrentUser
                  (emits_weaken _ _ _ plain_call_is_call emits_getCurrentUser)
                  s) as D1.
    pose proof (run_emits plain_call w _ emits_getCurrentUser s) as L1.
    rewrite U in D1, L1. auto.
  - pose proof (run_calls_db w getCurrentUser
                  (emits_weaken _ _ _ plain_call_is_call emits_getCurrentUser)
                  s) as D1.
    destruct (run_emits plain_call w _ emits_getCurrentUser s)
      as [l1 [L1 A1]].
    pose proof (run_calls_db w (getRepo identifier)
                  (emits_weaken _ _ _ plain_call_is_call
                     (emits_getRepo identifier)) s1) as D2.
    destruct (run_emits plain_call w _ (emits_getRepo identifier) s1)
      as [l2 [L2 A2]].
    rewrite U in D1, L1. rewrite R in D2, L2. simpl in *.
    split; [congruence|]. exists (l1 ++ l2).
    rewrite L2, L1, app_assoc, forallb_app, A1, A2. auto.
Qed.

(** How a verification ends: resolution fails, or the decision is reached
    and the claim is denied or approved. *)
Lemma verifyOwnership_cases (w : World) (identifier : string)
    (ctx : Context) (pid : string) (s : State) :
  let out := run w (verifyOwnership identifier ctx pid) s in
  (exists e s', resolution_fails w identifier s e s' /\ out = (Err e, s'))
  \/ (exists ri cu rd s2 ty s3,
        resolves w identifier s ri cu rd s2 /\
        run w (checkOwnership ri cu rd) s2 = (Ok (false, ty), s3) /\
        out = run w (deny ctx pid cu rd) s3)
  \/ (exists ri cu rd s2 ty s3,
        resolves w identifier s ri cu rd s2 /\
        run w (checkOwnership ri cu rd) s2 = (Ok (true, ty), s3) /\
        out = run w (assign ctx pid ri cu rd ty) s3).
Proof.
  cbv zeta. rewrite run_verifyOwnership. unfold resolution_fails, resolves.
  destruct (parseRepoIdentifier identifier) as [ri|e] eqn:P;
    [|left; eauto 10].
  destruct (run w getCurrentUser s) as [[cu|e] s1] eqn:U;
    [|left; eauto 10].
  destruct (run w (getRepo identifier) s1) as [[rd|e] s2] eqn:R;
    [|left; exists e, s2; split; [right; exists ri; split; eauto 10|auto]].
  destruct (checkOwnership_total w ri cu rd s2) as [[isOwner ty] [s3 C]].
  rewrite C. destruct isOwner; cbn [negb].
  - right. right. exists ri, cu, rd, s2, ty, s3. eauto 10.
  - right. left. exists ri, cu, rd, s2, ty, s3. eauto 10.
Qed.

Lemma emits_assign_rows (ctx : Context) (pid : string) (ri : RepoIdentifier)
    (cu : CurrentUser) (rd : RepoData) (ty : string) :
  emits not_failing_row (assign ctx pid ri cu rd ty).
Proof.
  intros now rows. split; [reflexivity|].
  destruct rows as [|first rest]; [exact I|].
  unfold session_userId. destruct (session ctx); simpl; auto.
Qed.

Lemma assign_not_forbidden (w : World) (ctx : Context) (pid : string)
    (ri : RepoIdentifier) (cu : CurrentUser) (rd : RepoData) (ty : string)
    (s : State) (msg : string) :
  fst (run w (assign ctx pid ri cu rd ty) s) <> Err (TRPCError FORBIDDEN msg).
Proof.
  unfold assign, session_userId. cbn [run]. unfold db_update_project.
  destruct (filter (claimable pid) (projects (db s))); simpl;
    [discriminate|].
  destruct (session ctx); simpl; discriminate.
Qed.

Lemma in_calls_not_stmt (P : LogEntry -> bool) (l : list LogEntry)
    (row : ProjectClaim) :
  forallb P l = true -> In (StmtInsertClaim row) l ->
  P (StmtInsertClaim row) = true.
Proof. intros H I. rewrite forallb_forall in H. auto. Qed.

Lemma names_middle (a b c : string) : names (a ++ b ++ c)%string b.
Proof. exists a, c. reflexivity. Qed.

Lemma names_end (a b : string) : names (a ++ b)%string b.
Proof.
  exists a, EmptyString. f_equal. induction b as [|ch b IH]; simpl; congruence.
Qed.

Lemma string_app_assoc (a b c : string) :
  (a ++ (b ++ c) = (a ++ b) ++ c)%string.
Proof. induction a as [|ch a IH]; simpl; congruence. Qed.

Lemma names_after (a t sub : string) : names t sub -> names (a ++ t)%string sub.
Proof.
  intros [before [after ->]]. exists (a ++ before)%string, after.
  apply string_app_assoc.
Qed.

Lemma decision_state (w : World) (identifier : string) (s : State)
    (ri : RepoIdentifier) (cu : CurrentUser) (rd : RepoData) (s2 s3 : State)
    (decision : bool * string) :
  resolves w identifier s ri cu rd s2 ->
  run w (checkOwnership ri cu rd) s2 = (Ok decision, s3) ->
  db s3 = db s /\ exists l, log s3 = log s ++ l /\ forallb is_call l = true.
Proof.
  intros Hres Hchk.
  destruct (resolves_state _ _ _ _ _ _ _ Hres) as [D2 [l2 [L2 A2]]].
  destruct (checkOwnership_state _ _ _ _ _ _ _ Hchk) as [D3 [l3 [L3 A3]]].
  split; [congruence|]. exists (l2 ++ l3).
  rewrite L3, L2, app_assoc, forallb_app, A3, andb_true_r.
  split; [reflexivity|]. rewrite forallb_forall in *.
  intros e He. apply plain_call_is_call. auto.
Qed.

Lemma is_call_not_failing (e : LogEntry) :
  is_call e = true -> not_failing_row e = true.
Proof. destruct e; simpl; congruence. Qed.

Lemma forallb_weaken {A : Type} (P Q : A -> bool) (l : list A) :
  (forall a, P a = true -> Q a = true) ->
  forallb P l = true -> forallb Q l = true.
Proof. intros HPQ. rewrite !forallb_forall. auto. Qed.

(** A denied claim by a caller with a session. *)
Lemma run_denied (w : World) (identifier : string) (ctx : Context)
    (pid : string) (s : State) (cu : CurrentUser) (rd : RepoData)
    (sess : Session) :
  denied w identifier s cu rd ->
  session ctx = Some sess ->
  exists l,
    forallb is_call l = true /\
    run w (verifyOwnership identifier ctx pid) s =
    (Err (TRPCError FORBIDDEN (denied_message cu rd)),
     mkState (db_insert_claim (db s) (denied_claim pid (userId sess) cu rd))
       (log s ++ l ++ [StmtInsertClaim (denied_claim pid (userId sess) cu rd)])).
Proof.
  intros [ri [s2 [ty [s3 [Hres Hchk]]]]] Hs.
  destruct (decision_state _ _ _ _ _ _ _ _ _ Hres Hchk) as [D [l [L A]]].
  exists l. split; [exact A|].
  rewrite (run_verifyOwnership_resolved _ _ _ _ _ _ _ _ _ Hres), Hchk.
  cbn [negb]. rewrite (run_deny_session w ctx pid cu rd sess s3 Hs).
  rewrite D, L, <- app_assoc. reflexivity.
Qed.

(** C5, as the code has it: for a caller with a session, a failing claim
    row is written exactly when the attempt reaches the decision and is
    denied; every FORBIDDEN failure comes with the inserted row (success
    false, verificationMethod github_api, details with the resolved
    identity, the repository owner and its type, and the reason
    insufficient_permissions) and with a message that names the caller and
    the repository owner; a failure of identity or repository resolution
    propagates and writes nothing. *)
Theorem denial_is_recorded (w : World) (identifier : string)
    (ctx : Context) (pid : string) (s : State) :
  let out := run w (verifyOwnership identifier ctx pid) s in
  (forall sess, session ctx = Some sess ->
     ((exists row, written s (snd out) row /\ success row = false) <->
      exists cu rd, denied w identifier s cu rd))
  /\ (forall msg, fst out = Err (TRPCError FORBIDDEN msg) ->
        exists cu rd sess,
          denied w identifier s cu rd /\ session ctx = Some sess /\
          msg = denied_message cu rd /\
          names msg (cu_username cu) /\ names msg (login (rd_owner rd)) /\
          let row :=
            mkProjectClaim pid (userId sess) false "github_api"
              (mkVerificationDetails (cu_username cu) (login (rd_owner rd))
                 (owner_type (rd_owner rd))
                 (Some "insufficient_permissions") None None)
              (Some (denied_reason cu rd)) in
          db (snd out) = db_insert_claim (db s) row /\
          written s (snd out) row)
  /\ (forall e s', resolution_fails w identifier s e s' ->
        out = (Err e, s') /\ db s' = db s /\
        forall row, ~ written s s' row).
Proof.
  cbv zeta. split; [|split].
  - intros sess Hs. split.
    + intros [row [[l [L I]] F]].
      destruct (verifyOwnership_cases w identifier ctx pid s)
        as [[e [s' [Hf Hout]]]|[[ri [cu [rd [s2 [ty [s3 [Hres [Hchk Hout]]]]]]]]
                               |[ri [cu [rd [s2 [ty [s3 [Hres [Hchk Hout]]]]]]]]]].
      * exfalso. rewrite Hout in L. simpl in L.
        destruct (resolution_fails_state _ _ _ _ _ Hf) as [_ [l' [L' A']]].
        rewrite L' in L. apply app_inv_head in L. subst l'.
        pose proof (in_calls_not_stmt _ _ _ A' I). discriminate.
      * exists cu, rd, ri, s2, ty, s3. auto.
      * exfalso. rewrite Hout in L.
        destruct (decision_state _ _ _ _ _ _ _ _ _ Hres Hchk) as [_ [l3 [L3 A3]]].
        destruct (run_emits not_failing_row w _
                    (emits_assign_rows ctx pid ri cu rd ty) s3) as [la [La Aa]].
        rewrite La, L3, <- app_assoc in L. apply app_inv_head in L. subst l.
        assert (A : forallb not_failing_row (l3 ++ la) = true).
        { rewrite forallb_app, Aa, andb_true_r.
          apply (forallb_weaken is_call); [apply is_call_not_failing|exact A3]. }
        pose proof (in_calls_not_stmt _ _ _ A I) as T. simpl in T. congruence.
    + intros [cu [rd Hd]].
      destruct (run_denied w identifier ctx pid s cu rd sess Hd Hs)
        as [l [_ Hrun]].
      exists (denied_claim pid (userId sess) cu rd). rewrite Hrun. simpl.
      split; [|reflexivity]. eexists. split; [reflexivity|].
      apply in_or_app. right. left. reflexivity.
  - intros msg Hmsg.
    destruct (verifyOwnership_cases w identifier ctx pid s)
      as [[e [s' [Hf Hout]]]|[[ri [cu [rd [s2 [ty [s3 [Hres [Hchk Hout]]]]]]]]
                             |[ri [cu [rd [s2 [ty [s3 [Hres [Hchk Hout]]]]]]]]]].
    + exfalso. rewrite Hout in Hmsg. simpl in Hmsg. injection Hmsg as ->.
      exact (resolution_error_kind _ _ _ _ _ Hf FORBIDDEN msg eq_refl).
    + assert (Hd : denied w identifier s cu rd).
      { exists ri, s2, ty, s3. auto. }
      destruct (session ctx) as [sess|] eqn:Hs.
      * destruct (run_denied w identifier ctx pid s cu rd sess Hd Hs)
          as [l [_ Hrun]].
        rewrite Hrun in Hmsg |- *. simpl in Hmsg. injection Hmsg as <-.
        exists cu, rd, sess. split; [exact Hd|]. split; [reflexivity|].
        split; [reflexivity|]. split; [apply names_middle|].
        split; [unfold denied_message; do 2 apply names_after;
                apply names_end|].
        simpl. split; [reflexivity|]. eexists. split; [reflexivity|].
        apply in_or_app. right. left. reflexivity.
      * exfalso. rewrite Hout in Hmsg.
        destruct (run_deny_no_session w ctx pid cu rd s3 Hs) as [m Hm].
        rewrite Hm in Hmsg. discriminate.
    + exfalso. rewrite Hout in Hmsg.
      exact (assign_not_forbidden _ _ _ _ _ _ _ _ _ Hmsg).
  - intros e s' Hf.
    destruct (resolution_fails_state _ _ _ _ _ Hf) as [D [l' [L' A']]].
    split; [|split; [exact D|]].
    + rewrite run_verifyOwnership.
      destruct Hf as [[P ->]|[ri [P [U|[cu [s1 [U R]]]]]]].
      * rewrite P. reflexivity.
      * rewrite P, U. reflexivity.
      * rewrite P, U, R. reflexivity.
    + intros row [l [L I]]. rewrite L' in L. apply app_inv_head in L.
      subst l'. pose proof (in_calls_not_stmt _ _ _ A' I). discriminate.
Qed.

Lemma denial_is_recorded_witness :
  exists cu rd sess,
    denied world_write "acme/widgets" (fresh db_unclaimed) cu rd /\
    session ctx_u1 = Some sess /\
    names (denied_message cu rd) (cu_username cu) /\
    names (denied_message cu rd) (login (rd_owner rd)).
Proof.
  destruct (denial_is_recorded world_write "acme/widgets" ctx_u1 "p1"
              (fresh db_unclaimed)) as [_ [Hforbidden _]].
  destruct (Hforbidden _ eq_refl)
    as [cu [rd [sess [Hd [Hs [Hm [Hn1 [Hn2 _]]]]]]]].
  exists cu, rd, sess. rewrite <- Hm. auto.
Defined.

(** C5 as stated fails: the failing row carries the label github_api, not
    provider_api; and a denied caller without a session gets no row at
    all. *)
Lemma denial_is_recorded_counterexample :
  (exists msg,
     fst (run world_write (verifyOwnership "acme/widgets" ctx_u1 "p1")
            (fresh db_unclaimed)) = Err (TRPCError FORBIDDEN msg))
  /\ (forall row,
        In row (claims (db (snd (run world_write
                                   (verifyOwnership "acme/widgets" ctx_u1 "p1")
                                   (fresh db_unclaimed))))) ->
        verificationMethod row = "github_api" /\
        verificationMethod row <> "provider_api")
  /\ denied world_write "acme/widgets" (fresh db_unclaimed)
       (mkCurrentUser "583231" "alice")
       (mkRepoData 1296269 "widgets" None "https://github.com/acme/widgets"
          false acme)
  /\ claims (db (snd (run world_write
                        (verifyOwnership "acme/widgets" ctx_anonymous "p1")
                        (fresh db_unclaimed)))) = [].
Proof.
  split; [eexists; reflexivity|]. split; [|split].
  - simpl. intros row [<-|[]]. simpl. split; [reflexivity|discriminate].
  - exists (mkRepoIdentifier "acme" "widgets"). do 3 eexists.
    split; [split; [reflexivity|eexists; split; reflexivity]|reflexivity].
  - reflexivity.
Qed.

(** ** Claims about the order of the two statements *)

Lemma keeps_owners_refl (d : DB) : keeps_owners d d.
Proof. intros pid uid H. exact H. Qed.

Lemma keeps_owners_trans (d1 d2 d3 : DB) :
  keeps_owners d1 d2 -> keeps_owners d2 d3 -> keeps_owners d1 d3.
Proof. intros H12 H23 pid uid H. auto. Qed.

Lemma keeps_owners_update (d : DB) (pid : string) (o : option string)
    (now : Z) :
  keeps_owners d (fst (db_update_project d pid o now)).
Proof.
  intros pid' uid [p [Hin [Hid Ho]]]. exists p. split; [|auto].
  apply update_keeps_set; [exact Hin|congruence].
Qed.

Lemma keeps_owners_insert (d : DB) (row : ProjectClaim) :
  keeps_owners d (db_insert_claim d row).
Proof. intros pid uid H. exact H. Qed.

(** After an update that returned a row, the project is assigned. *)
Lemma update_assigns (d : DB) (pid uid : string) (now : Z) :
  snd (db_update_project d pid (Some uid) now) <> [] ->
  owned_by (fst (db_update_project d pid (Some uid) now)) pid uid.
Proof.
  simpl. intro Hne.
  destruct (filter (claimable pid) (projects d)) as [|p0 rest] eqn:F;
    [contradiction|].
  assert (Hin : In p0 (filter (claimable pid) (projects d))).
  { rewrite F. left. reflexivity. }
  apply filter_In in Hin. destruct Hin as [Hin Hc].
  exists (set_owner (Some uid) now p0). split; [|split].
  - apply in_map_iff. exists p0. rewrite Hc. auto.
  - apply claimable_spec in Hc. simpl. tauto.
  - reflexivity.
Qed.

Lemma safe_stable {A : Type} (p : Prog A) :
  forall d d', safe p d -> keeps_owners d d' -> safe p d'.
Proof.
  induction p as [a|e|k IH|key k IH|key v ttl k IH|o r k IH|o r u k IH
                 |o u k IH|k IH|row k IH|pid o now k IH];
    simpl; intros d d' Hs Hk; eauto.
  - destruct Hs as [Hrow Hsafe]. split; eauto.
  - intros d'' Hk'. apply Hs. eapply keeps_owners_trans; eauto.
Qed.

Lemma safe_calls {A : Type} (p : Prog A) (d : DB) :
  emits is_call p -> safe p d.
Proof.
  induction p as [a|e|k IH|key k IH|key v ttl k IH|o r k IH|o r u k IH
                 |o u k IH|k IH|row k IH|pid o now k IH];
    simpl; intro Hp; auto;
    try (destruct Hp as [H0 Hk]; try discriminate; auto).
  destruct (Hp []) as [H0 _]. discriminate.
Qed.

Lemma safe_bind_calls {A B : Type} (p : Prog A) (f : A -> Prog B) (d : DB) :
  emits is_call p -> (forall a, safe (f a) d) -> safe (bind p f) d.
Proof.
  intros Hp Hf.
  induction p as [a|e|k IH|key k IH|key v ttl k IH|o r k IH|o r u k IH
                 |o u k IH|k IH|row k IH|pid o now k IH];
    simpl in *; auto;
    try (destruct Hp as [H0 Hk]; try discriminate; auto).
  destruct (Hp []) as [H0 _]. discriminate.
Qed.

Lemma safe_deny (ctx : Context) (pid : string) (cu : CurrentUser)
    (rd : RepoData) (d : DB) :
  safe (deny ctx pid cu rd) d.
Proof.
  unfold deny, session_userId. destruct (session ctx); simpl; auto.
  split; [discriminate|exact I].
Qed.

Lemma safe_assign (ctx : Context) (pid : string) (ri : RepoIdentifier)
    (cu : CurrentUser) (rd : RepoData) (ty : string) (d : DB) :
  safe (assign ctx pid ri cu rd ty) d.
Proof.
  unfold assign. cbn [safe]. intros now d' _.
  destruct (snd (db_update_project d' pid (session_userId_or_null ctx) now))
    as [|first rest] eqn:R; [exact I|].
  unfold session_userId, session_userId_or_null in *.
  destruct (session ctx) as [sess|]; simpl; [|exact I].
  split; [|exact I]. intros _.
  apply (update_assigns d' pid (userId sess) now). rewrite R. discriminate.
Qed.

Lemma safe_verifyOwnership (identifier : string) (ctx : Context)
    (pid : string) (d : DB) :
  safe (verifyOwnership identifier ctx pid) d.
Proof.
  unfold verifyOwnership.
  apply safe_bind_calls; [apply emits_settle|]. intro ri.
  apply safe_bind_calls;
    [exact (emits_weaken _ _ _ plain_call_is_call emits_getCurrentUser)|].
  intro cu.
  apply safe_bind_calls;
    [exact (emits_weaken _ _ _ plain_call_is_call (emits_getRepo identifier))|].
  intro rd.
  apply safe_bind_calls; [apply emits_checkOwnership|].
  intros [isOwner ty]. destruct isOwner; cbn [negb].
  - apply safe_assign.
  - apply safe_deny.
Qed.

(** One call of a safe program in a consistent database. *)
Lemma step_safe {A : Type} (w : World) (p p' : Prog A) (d d' : DB) :
  step w p d = Some (p', d') ->
  safe p d -> consistent d ->
  keeps_owners d d' /\ safe p' d' /\ consistent d'.
Proof.
  destruct p as [a|e|k|key k|key v ttl k|o r k|o r u k|o u k|k|row k
                |pid o now k];
    simpl; intros Hstep Hs Hc; try discriminate;
    try (injection Hstep as <- <-;
         split; [apply keeps_owners_refl|]; split; [auto|exact Hc]).
  - injection Hstep as <- <-. destruct Hs as [Hrow Hk].
    split; [apply keeps_owners_insert|]. split.
    + eapply safe_stable; [exact Hk|apply keeps_owners_insert].
    + intros c Hin Hsucc. simpl in Hin. apply in_app_or in Hin.
      destruct Hin as [Hin|[<-|[]]].
      * apply (Hc c Hin Hsucc).
      * apply (Hrow Hsucc).
  - injection Hstep as <- <-.
    pose proof (keeps_owners_update d pid o now) as Hk.
    split; [exact Hk|]. split.
    + apply (Hs d (keeps_owners_refl d)).
    + intros c Hin Hsucc. apply Hk. apply (Hc c Hin Hsucc).
Qed.

Lemma pool_step_ok (c c' : DB * list Thread) :
  pool_step c c' -> pool_ok c -> pool_ok c'.
Proof.
  intros [d d' before after th p' Hstep] [Hc Hall]. simpl in *.
  apply Forall_app in Hall. destruct Hall as [Hb Hrest].
  inversion Hrest as [|th0 after0 Hth Ha]; subst.
  destruct (step_safe _ _ _ _ _ Hstep Hth Hc) as [Hk [Hs' Hc']].
  split; [exact Hc'|]. simpl. apply Forall_app. split.
  - eapply Forall_impl; [|exact Hb]. intros a Ha'.
    exact (safe_stable _ _ _ Ha' Hk).
  - constructor; [exact Hs'|].
    eapply Forall_impl; [|exact Ha]. intros a Ha'.
    exact (safe_stable _ _ _ Ha' Hk).
Qed.

Lemma reachable_ok (c c' : DB * list Thread) :
  reachable c c' -> pool_ok c -> pool_ok c'.
Proof.
  induction 1 as [c|c1 c2 c3 Hstep _ IH]; [auto|].
  intro Hok. apply IH. eapply pool_step_ok; eauto.
Qed.

Lemma step_at_pool_step (i : nat) :
  forall d ths c', step_at i d ths = Some c' -> pool_step (d, ths) c'.
Proof.
  induction i as [|i IH]; intros d [|th rest] c' H; simpl in H;
    try discriminate.
  - destruct (step (th_world th) (th_prog th) d) as [[p' d']|] eqn:E;
      [|discriminate].
    injection H as <-. exact (pool_step_at d d' [] rest th p' E).
  - destruct (step_at i d rest) as [[d' rest']|] eqn:E; [|discriminate].
    injection H as <-. apply IH in E.
    inversion E as [d1 d1' before after th1 p' Hstep]; subst.
    exact (pool_step_at d d' (th :: before) after th1 p' Hstep).
Qed.

Lemma schedule_reachable (sched : list nat) :
  forall c, reachable c (schedule sched c).
Proof.
  induction sched as [|i sched IH]; intro c; simpl.
  - apply reachable_here.
  - destruct (step_at i (fst c) (snd c)) as [c'|] eqn:E; [|apply IH].
    apply (reachable_next c c'); [|apply IH].
    destruct c as [d ths]. apply (step_at_pool_step i). exact E.
Qed.

(** No call changes, adds or removes a project id. *)
Lemma step_ids {A : Type} (w : World) (p p' : Prog A) (d d' : DB) :
  step w p d = Some (p', d') ->
  map id (projects d') = map id (projects d).
Proof.
  destruct p; simpl; intro H; try discriminate; injection H as <- <-;
    try reflexivity.
  simpl. rewrite map_map. apply map_ext. intro q.
  destruct (claimable pid q); reflexivity.
Qed.

Lemma reachable_ids (c c' : DB * list Thread) :
  reachable c c' ->
  map id (projects (fst c')) = map id (projects (fst c)).
Proof.
  induction 1 as [c|c1 c2 c3 Hstep _ IH]; [reflexivity|].
  rewrite IH. destruct Hstep as [d d' before after th p' Hstep]. simpl.
  exact (step_ids _ _ _ _ _ Hstep).
Qed.

Lemma unique_row (l : list Project) (p q : Project) :
  NoDup (map id l) -> In p l -> In q l -> id p = id q -> p = q.
Proof.
  induction l as [|x l IH]; simpl; [contradiction|].
  intros N Hp Hq E. inversion N as [|y ys Hnot N']; subst.
  destruct Hp as [->|Hp], Hq as [->|Hq]; auto.
  - exfalso. apply Hnot. rewrite E. apply in_map. exact Hq.
  - exfalso. apply Hnot. rewrite <- E. apply in_map. exact Hp.
Qed.

(** C6: a call that succeeds has issued the conditional update and then,
    as its next statement, the insert of the success row, and the update
    had assigned the project to the session's user before the row was
    inserted; and however concurrent calls interleave at their awaited
    calls, a database that starts consistent stays consistent: every
    success row is for a project already assigned to the row's user (with
    unique project ids: the project's ownerId is the row's user). *)
Theorem update_before_success_row :
  (forall w identifier ctx pid s r s',
     run w (verifyOwnership identifier ctx pid) s = (Ok r, s') ->
     exists sess calls row,
       session ctx = Some sess /\
       forallb is_call calls = true /\
       let o := Some (userId sess) in
       let upd := db_update_project (db s) pid o (date_now w) in
       log s' = log s ++ calls
                ++ [StmtUpdateProject pid o (date_now w) (snd upd);
                    StmtInsertClaim row] /\
       db s' = db_insert_claim (fst upd) row /\
       owned_by (fst upd) pid (userId sess) /\
       projectId row = pid /\ claim_userId row = userId sess /\
       success row = true)
  /\ (forall d0 calls d threads,
        consistent d0 ->
        reachable (d0, map start calls) (d, threads) ->
        consistent d)
  /\ (forall d0 calls d threads c p,
        consistent d0 ->
        NoDup (map id (projects d0)) ->
        reachable (d0, map start calls) (d, threads) ->
        In c (claims d) -> success c = true ->
        In p (projects d) -> id p = projectId c ->
        ownerId p = Some (claim_userId c)).
Proof.
  assert (Hinv : forall d0 calls d threads,
             consistent d0 ->
             reachable (d0, map start calls) (d, threads) ->
             consistent d).
  { intros d0 calls d threads Hc Hreach.
    assert (Hok : pool_ok (d0, map start calls)).
    { split; [exact Hc|]. simpl. apply Forall_forall. intros th Hin.
      apply in_map_iff in Hin. destruct Hin as [c [<- _]].
      apply safe_verifyOwnership. }
    exact (proj1 (reachable_ok _ _ Hreach Hok)). }
  split; [|split; [exact Hinv|]].
  - intros w identifier ctx pid s r s' Hrun.
    destruct (verifyOwnership_cases w identifier ctx pid s)
      as [[e [s1 [Hf Hout]]]|[[ri [cu [rd [s2 [ty [s3 [Hres [Hchk Hout]]]]]]]]
                             |[ri [cu [rd [s2 [ty [s3 [Hres [Hchk Hout]]]]]]]]]];
      rewrite Hrun in Hout.
    + discriminate.
    + exfalso. unfold deny, session_userId in Hout.
      destruct (session ctx); simpl in Hout; discriminate.
    + destruct (decision_state _ _ _ _ _ _ _ _ _ Hres Hchk) as [D [l [L A]]].
      destruct (filter (claimable pid) (projects (db s3))) as [|p0 rest] eqn:F.
      { rewrite (run_assign_conflict _ _ _ _ _ _ _ _ F) in Hout.
        discriminate. }
      destruct (session ctx) as [sess|] eqn:Hs.
      * rewrite (run_assign_session w ctx pid ri cu rd ty sess s3 p0 rest
                   Hs F) in Hout.
        injection Hout as -> ->.
        exists sess, l, (success_claim pid (userId sess) ri cu rd ty).
        cbv zeta. cbn [db log]. rewrite <- D, L, <- app_assoc.
        repeat split; try reflexivity; try exact A.
        apply update_assigns. simpl. rewrite F. discriminate.
      * exfalso.
        destruct (run_assign_no_session w ctx pid ri cu rd ty s3 Hs)
          as [e [He _]].
        rewrite <- Hout in He. discriminate.
  - intros d0 calls d threads c p Hc Hnd Hreach Hin Hsucc Hp Hid.
    destruct (Hinv d0 calls d threads Hc Hreach c Hin Hsucc)
      as [q [Hq [Hqid Hqo]]].
    pose proof (reachable_ids _ _ Hreach) as Hids. simpl in Hids.
    rewrite <- Hids in Hnd.
    rewrite (unique_row (projects d) p q Hnd Hp Hq); [exact Hqo|congruence].
Qed.

Lemma update_before_success_row_witness :
  consistent (fst (schedule race_schedule (db_unclaimed, map start race_calls)))
  /\ map outcome
       (snd (schedule race_schedule (db_unclaimed, map start race_calls)))
     = [Some (Ok (mkVerifyResult true
                    (mkProject "p1" (Some "u1") 1700000000000)
                    "repository owner" "octocat"));
        Some (Err already_claimed)].
Proof.
  split; [|reflexivity].
  apply (proj1 (proj2 update_before_success_row) db_unclaimed race_calls _
           (snd (schedule race_schedule (db_unclaimed, map start race_calls)))).
  - intros c [].
  - rewrite <- surjective_pairing. apply schedule_reachable.
Defined.

(** ** Claims about the identifier *)

Lemma split_slash_nonempty (s : string) : split_slash s <> [].
Proof.
  destruct s as [|c rest]; simpl; [discriminate|].
  destruct (Ascii.eqb c "/"); [discriminate|].
  destruct (split_slash rest); discriminate.
Qed.

Lemma split_no_slash (s : string) :
  has_slash s = false -> split_slash s = [s].
Proof.
  induction s as [|c rest IH]; simpl; [reflexivity|].
  intro H. apply orb_false_elim in H. destruct H as [Hc Hr].
  rewrite Hc, (IH Hr). reflexivity.
Qed.

Lemma split_segment (a rest : string) :
  has_slash a = false ->
  split_slash (a ++ "/" ++ rest) = a :: split_slash rest.
Proof.
  induction a as [|c a IH]; simpl in *; [reflexivity|].
  intro H. apply orb_false_elim in H. destruct H as [Hc Ha].
  rewrite Hc, (IH Ha). reflexivity.
Qed.

Lemma split_segments (s : string) :
  Forall (fun seg => has_slash seg = false) (split_slash s).
Proof.
  induction s as [|c rest IH]; simpl.
  - constructor; [reflexivity|constructor].
  - destruct (Ascii.eqb c "/") eqn:E.
    + constructor; [reflexivity|exact IH].
    + destruct (split_slash rest) as [|seg segs].
      * constructor; [simpl; rewrite E; reflexivity|constructor].
      * inversion IH as [|x l Hseg Hsegs]; subst.
        constructor; [simpl; rewrite E, Hseg; reflexivity|exact Hsegs].
Qed.

Lemma join_cons (x : string) (l : list string) :
  l <> [] -> join_slash (x :: l) = (x ++ "/" ++ join_slash l)%string.
Proof. destruct l; [contradiction|reflexivity]. Qed.

Lemma join_split (s : string) : join_slash (split_slash s) = s.
Proof.
  induction s as [|c rest IH]; [reflexivity|].
  pose proof (split_slash_nonempty rest) as N. simpl.
  destruct (Ascii.eqb c "/") eqn:E.
  - apply Ascii.eqb_eq in E. subst c.
    rewrite (join_cons _ _ N), IH. reflexivity.
  - destruct (split_slash rest) as [|seg segs]; [contradiction|].
    rewrite <- IH. destruct segs; reflexivity.
Qed.

Lemma truthy_some (x : string) : truthy (Some x) = true <-> x <> EmptyString.
Proof. destruct x; simpl; split; congruence. Qed.

(** What the parser returns, in terms of the segments. *)
Lemma parse_segments (identifier : string) (ri : RepoIdentifier) :
  parseRepoIdentifier identifier = Ok ri <->
  exists more,
    split_slash identifier = ri_owner ri :: ri_repo ri :: more /\
    ri_owner ri <> EmptyString /\ ri_repo ri <> EmptyString.
Proof.
  unfold parseRepoIdentifier. destruct ri as [o r]. cbn [ri_owner ri_repo].
  destruct (split_slash identifier) as [|a [|b more]]; cbn [nth_error].
  - split; [discriminate|]. intros [more [H _]]. discriminate.
  - split; [|intros [more [H _]]; discriminate].
    destruct (truthy (Some a)); discriminate.
  - split.
    + destruct (truthy (Some a)) eqn:Ta; [|discriminate].
      destruct (truthy (Some b)) eqn:Tb; [|discriminate].
      cbn [negb orb]. intro H. injection H as <- <-. exists more.
      apply truthy_some in Ta. apply truthy_some in Tb. auto.
    + intros [more' [H [Ho Hr]]]. injection H as <- <- _.
      apply truthy_some in Ho. apply truthy_some in Hr.
      rewrite Ho, Hr. reflexivity.
Qed.

Lemma parse_error (identifier : string) (e : Error) :
  parseRepoIdentifier identifier = Err e -> e = invalid_format.
Proof.
  unfold parseRepoIdentifier.
  destruct (negb _ || negb _); [congruence|].
  destruct (nth_error _ 0); [|congruence].
  destruct (nth_error _ 1); congruence.
Qed.

(** C8, as the code has it: an identifier [owner/name] whose two segments
    are non-empty and free of ['/'] parses to exactly those two segments;
    in general the parser splits on every ['/'] and reads the first two
    segments only, so it succeeds exactly on [owner/name] and on
    [owner/name/anything] with [owner] and [name] non-empty and free of
    ['/'], and fails, always with the invalid-format error, on every other
    string. *)
Theorem parseRepoIdentifier_segments :
  (forall owner name,
     owner <> EmptyString -> name <> EmptyString ->
     has_slash owner = false -> has_slash name = false ->
     parseRepoIdentifier (owner ++ "/" ++ name)
     = Ok (mkRepoIdentifier owner name))
  /\ (forall identifier o r,
        parseRepoIdentifier identifier = Ok (mkRepoIdentifier o r) <->
        o <> EmptyString /\ r <> EmptyString /\
        has_slash o = false /\ has_slash r = false /\
        (identifier = (o ++ "/" ++ r)%string \/
         exists rest, identifier = (o ++ "/" ++ r ++ "/" ++ rest)%string))
  /\ (forall identifier e,
        parseRepoIdentifier identifier = Err e -> e = invalid_format).
Proof.
  assert (Hok : forall identifier o r,
             o <> EmptyString -> r <> EmptyString ->
             has_slash o = false -> has_slash r = false ->
             (identifier = (o ++ "/" ++ r)%string \/
              exists rest, identifier = (o ++ "/" ++ r ++ "/" ++ rest)%string) ->
             parseRepoIdentifier identifier = Ok (mkRepoIdentifier o r)).
  { intros identifier o r Ho Hr So Sr Hid. apply parse_segments. simpl.
    destruct Hid as [->|[rest ->]].
    - exists []. rewrite (split_segment o r So), (split_no_slash r Sr). auto.
    - exists (split_slash rest).
      rewrite (split_segment o _ So), (split_segment r rest Sr). auto. }
  split; [|split].
  - intros owner name Ho Hn So Sn. apply Hok; auto.
  - intros identifier o r. split.
    + intro H. apply parse_segments in H. simpl in H.
      destruct H as [more [Hs [Ho Hr]]].
      pose proof (split_segments identifier) as Hf. rewrite Hs in Hf.
      inversion Hf as [|x l So Hf']; subst.
      inversion Hf' as [|x l Sr _]; subst.
      repeat (split; [assumption|]).
      pose proof (join_split identifier) as J. rewrite Hs in J.
      rewrite join_cons in J by discriminate.
      destruct more as [|m more]; [left; auto|]. right.
      rewrite join_cons in J by discriminate.
      exists (join_slash (m :: more)). auto.
    + intros [Ho [Hr [So [Sr Hid]]]]. apply Hok; auto.
  - apply parse_error.
Qed.

Lemma parseRepoIdentifier_segments_witness :
  parseRepoIdentifier "octocat/Hello-World"
  = Ok (mkRepoIdentifier "octocat" "Hello-World").
Proof.
  apply (proj1 parseRepoIdentifier_segments "octocat" "Hello-World");
    [discriminate|discriminate|reflexivity|reflexivity].
Defined.

(** C8 as stated fails: with a third segment there is not exactly one
    segment on each side of a ['/'], yet the parser succeeds; and it does
    not return what is left of the first ['/'] and what is right of it. *)
Lemma parseRepoIdentifier_counterexample :
  parseRepoIdentifier "a/b/c" = Ok (mkRepoIdentifier "a" "b")
  /\ split_slash "a/b/c" = ["a"; "b"; "c"]
  /\ parseRepoIdentifier "a/b/c" <> Ok (mkRepoIdentifier "a" "b/c")
  /\ parseRepoIdentifier "a/b/c" <> Err invalid_format.
Proof.
  split; [reflexivity|]. split; [reflexivity|]. split; discriminate.
Qed.

(** ** Claims about the pull requests of a user *)

Section FetchLoop.

Variable graphql : string -> Z -> option string -> Answer Response.
Variable username : string.
Variable limit : Z.
Variable stateFilter : StateFilter.

Lemma fetchLoop_fetched (fuel : nat) :
  forall allPRs more cursor prs,
    Forall (fetched graphql username stateFilter) allPRs ->
    fetchLoop graphql username limit stateFilter fuel allPRs more cursor
    = Some (Ok prs) ->
    Forall (fetched graphql username stateFilter) prs.
Proof.
  induction fuel as [|fuel IH]; intros allPRs more cursor prs Hall;
    cbn [fetchLoop];
    destruct (more && Z.ltb (Z.of_nat (length allPRs)) limit);
    try discriminate; try (intro H; injection H as <-; exact Hall).
  destruct (graphql username _ cursor) as [response|st msg] eqn:G;
    [|discriminate].
  destruct (user response) as [pullRequests|] eqn:U; [|discriminate].
  cbv zeta.
  assert (Hall' : Forall (fetched graphql username stateFilter)
                    (allPRs ++ filter (keepPR stateFilter)
                                 (map formatPR (nodes pullRequests)))).
  { apply Forall_app. split; [exact Hall|].
    apply Forall_forall. intros pr Hin. apply filter_In in Hin.
    destruct Hin as [Hin Hk]. apply in_map_iff in Hin.
    destruct Hin as [n [<- Hn]]. split; [exact Hk|].
    exists n. split; [reflexivity|].
    exists (Z.min 100 (limit - Z.of_nat (length allPRs))), cursor,
      response, pullRequests. auto. }
  destruct (negb _ || Z.leb _ _).
  - intro H. injection H as <-. exact Hall'.
  - apply IH. exact Hall'.
Qed.

(** Without a positive limit the loop is not entered. *)
Lemma fetchLoop_no_limit (fuel : nat) (cursor : option string) :
  (limit <= 0)%Z ->
  fetchLoop graphql username limit stateFilter fuel [] true cursor
  = Some (Ok []).
Proof.
  intro H. destruct fuel; cbn [fetchLoop]; simpl length;
    destruct (Z.ltb_spec (Z.of_nat 0) limit); simpl; try reflexivity; lia.
Qed.

End FetchLoop.

Lemma firstn_incl {A : Type} (n : nat) (xs : list A) (x : A) :
  In x (firstn n xs) -> In x xs.
Proof.
  intro H. rewrite <- (firstn_skipn n xs). apply in_or_app. left. exact H.
Qed.

Lemma slice0_incl {A : Type} (xs : list A) (e : Z) (x : A) :
  In x (slice0 xs e) -> In x xs.
Proof.
  unfold slice0. destruct (Z.ltb e 0); apply firstn_incl.
Qed.

Lemma slice0_length {A : Type} (xs : list A) (e : Z) :
  (0 <= e)%Z -> (length (slice0 xs e) <= Z.to_nat e)%nat.
Proof.
  intro H. unfold slice0. destruct (Z.ltb_spec e 0); [lia|].
  apply firstn_le_length.
Qed.

(** What the method returns, whatever the provider answers and however
    much fuel it is given. *)
Lemma getUserPullRequests_fetched
    (graphql : string -> Z -> option string -> Answer Response)
    (username : string) (options : option Options) (fuel : nat)
    (prs : list UserPullRequestData) :
  getUserPullRequests graphql username options fuel = Some (Ok prs) ->
  Forall (fetched graphql username (stateFilter_of options)) prs
  /\ (length prs <= Z.to_nat (limit_of options))%nat.
Proof.
  unfold getUserPullRequests.
  destruct (fetchLoop graphql username (limit_of options)
              (stateFilter_of options) fuel [] true None)
    as [[allPRs|e]|] eqn:L; try discriminate.
  intro H. injection H as <-. split.
  - pose proof (fetchLoop_fetched _ _ _ _ fuel [] true None allPRs
                  (Forall_nil _) L) as F.
    rewrite Forall_forall in *. intros pr Hin. apply F.
    apply (slice0_incl _ _ _ Hin).
  - destruct (Z.le_gt_cases (limit_of options) 0) as [Hle|Hgt].
    + rewrite (fetchLoop_no_limit graphql username _ _ fuel None Hle) in L.
      injection L as <-. unfold slice0.
      destruct (Z.ltb (limit_of options) 0); rewrite firstn_nil; simpl; lia.
    + apply slice0_length. lia.
Qed.

Lemma truthy_or_undefined (x : option string) :
  truthy (or_undefined x) = truthy x.
Proof. unfold or_undefined. destruct (truthy x) eqn:E; [exact E|reflexivity]. Qed.

Lemma or_undefined_falsy (x : option string) :
  truthy (or_undefined x) = false -> or_undefined x = None.
Proof.
  rewrite truthy_or_undefined. unfold or_undefined. intros ->. reflexivity.
Qed.

Lemma toLowerCase_merged (st : NodeState) :
  toLowerCase st = "merged" -> st = MERGED.
Proof. destruct st; simpl; congruence. Qed.

Lemma cursor_roundtrip (n : nat) : cursor_offset (offset_cursor n) = n.
Proof.
  unfold cursor_offset, offset_cursor. rewrite NilEmpty.usu.
  apply DecimalNat.Unsigned.of_to.
Qed.

(** Against the paging provider the loop ends: every request but the last
    moves the cursor forward. *)
Lemma fetchLoop_paged_ends (known : string -> option (list Node))
    (username : string) (limit : Z) (stateFilter : StateFilter)
    (prs : list Node) :
  known username = Some prs ->
  forall fuel allPRs more cursor,
    (length prs - cursor_offset cursor < fuel)%nat ->
    exists r,
      fetchLoop (pagedProvider known) username limit stateFilter fuel allPRs
        more cursor = Some r.
Proof.
  intro Hk. induction fuel as [|fuel IH]; intros allPRs more cursor Hf;
    [lia|].
  cbn [fetchLoop].
  destruct (more && Z.ltb (Z.of_nat (length allPRs)) limit) eqn:C;
    [|eauto].
  apply andb_prop in C. destruct C as [_ C]. apply Z.ltb_lt in C.
  unfold pagedProvider at 1. rewrite Hk. cbn [user pageInfo nodes hasNextPage
                                              endCursor].
  set (first := Z.min 100 (limit - Z.of_nat (length allPRs))).
  set (start := cursor_offset cursor).
  set (page := firstn (Z.to_nat first) (skipn start prs)).
  destruct (Nat.ltb_spec (start + length page) (length prs)) as [Hlt|Hge];
    cbn [negb orb]; [|eauto].
  destruct (Z.leb limit _); [eauto|].
  apply IH. rewrite cursor_roundtrip.
  assert (Hpage : (1 <= length page)%nat).
  { unfold page. rewrite length_firstn, length_skipn.
    apply Nat.min_glb; [|lia]. unfold first. lia. }
  fold start in Hf. lia.
Qed.

Lemma getUserPullRequests_paged_ends (known : string -> option (list Node))
    (username : string) (options : option Options) :
  exists r,
    getUserPullRequests (pagedProvider known) username options
      (enough_fuel known username) = Some r.
Proof.
  unfold getUserPullRequests, enough_fuel.
  destruct (known username) as [prs|] eqn:Hk.
  - destruct (fetchLoop_paged_ends known username (limit_of options)
                (stateFilter_of options) prs Hk (S (length prs)) [] true None)
      as [r Hr]; [simpl; lia|].
    rewrite Hr. destruct r; eauto.
  - cbn [fetchLoop]. destruct (true && _); [|eauto].
    unfold pagedProvider. rewrite Hk. simpl. eauto.
Qed.

(** C9, as the code has it: with the filter merged every returned pull
    request is reported merged or has a non-empty merge timestamp (and
    every one has a non-empty merge timestamp when the provider gives one
    to each pull request it reports merged), and a pull request with a
    non-empty merge timestamp is kept whatever its reported state; with the
    filter closed every returned pull request is closed and has no merge
    timestamp; and at most as many records are returned as the limit in
    force (the given limit, or 100 when it is 0 or omitted), however many
    pages the provider has. Against a provider that pages through a finite
    list the method does return. *)
Theorem getUserPullRequests_filter_and_cap :
  (forall (graphql : string -> Z -> option string -> Answer Response)
          (username : string) (options : option Options) (fuel : nat)
          (prs : list UserPullRequestData),
     getUserPullRequests graphql username options fuel = Some (Ok prs) ->
     (stateFilter_of options = merged ->
        Forall (fun pr => pr_state pr = "merged"
                          \/ truthy (pr_mergedAt pr) = true) prs
        /\ ((forall n, returned graphql username n ->
                       n_state n = MERGED -> truthy (n_mergedAt n) = true) ->
            Forall (fun pr => truthy (pr_mergedAt pr) = true) prs))
     /\ (forall n, truthy (n_mergedAt n) = true ->
                   keepPR merged (formatPR n) = true)
     /\ (stateFilter_of options = closed ->
           Forall (fun pr => pr_state pr = "closed" /\ pr_mergedAt pr = None)
                  prs)
     /\ (length prs <= Z.to_nat (limit_of options))%nat)
  /\ (forall known username options,
        exists r,
          getUserPullRequests (pagedProvider known) username options
            (enough_fuel known username) = Some r).
Proof.
  split; [|exact getUserPullRequests_paged_ends].
  intros graphql username options fuel prs H.
  apply getUserPullRequests_fetched in H. destruct H as [F L].
  split; [|split; [|split; [|exact L]]].
  - intro Hm. rewrite Hm in F. split.
    + eapply Forall_impl; [|exact F]. intros pr [K _]. simpl in K.
      apply orb_prop in K. destruct K as [K|K]; [left|right; exact K].
      apply String.eqb_eq. exact K.
    + intro Hcons. eapply Forall_impl; [|exact F].
      intros pr [K [n [-> Hn]]]. simpl in K. simpl.
      rewrite truthy_or_undefined in *.
      apply orb_prop in K. destruct K as [K|K]; [|exact K].
      apply String.eqb_eq, toLowerCase_merged in K. auto.
  - intros n Hn. simpl. rewrite truthy_or_undefined, Hn. apply orb_true_r.
  - intro Hc. rewrite Hc in F. eapply Forall_impl; [|exact F].
    intros pr [K [n [-> Hn]]]. simpl in K. apply andb_prop in K.
    destruct K as [K1 K2]. split; [apply String.eqb_eq; exact K1|].
    simpl. apply or_undefined_falsy. apply negb_true_iff. exact K2.
Qed.

Lemma getUserPullRequests_filter_and_cap_witness :
  exists prs,
    scenario_e = Some (Ok prs) /\
    (length prs <= 50)%nat /\
    Forall (fun pr => pr_state pr = "merged"
                      \/ truthy (pr_mergedAt pr) = true) prs.
Proof.
  destruct scenario_e as [[prs|e]|] eqn:E;
    [|vm_compute in E; discriminate|vm_compute in E; discriminate].
  exists prs. split; [reflexivity|].
  destruct (proj1 getUserPullRequests_filter_and_cap _ _ _ _ _ E)
    as [Hm [_ [_ Hl]]].
  split; [exact Hl|]. exact (proj1 (Hm eq_refl)).
Defined.

(** C9 as stated fails: with the limit 0 a record is returned, more than
    the limit; and with the filter merged a pull request that the provider
    reports merged without a merge timestamp is returned. *)
Lemma getUserPullRequests_counterexample :
  (exists pr,
     getUserPullRequests (pagedProvider (alice_has (merged_prs 1))) "alice"
       (Some (mkOptions (Some merged) (Some 0%Z))) 1 = Some (Ok [pr])
     /\ (Z.of_nat (length [pr]) > 0)%Z)
  /\ (exists pr,
        getUserPullRequests (pagedProvider (alice_has merged_untimed)) "alice"
          (Some (mkOptions (Some merged) (Some 50%Z))) 1 = Some (Ok [pr])
        /\ pr_mergedAt pr = None).
Proof.
  split; eexists; split; try reflexivity.
Qed.

(** C10: the limit 0 is treated as an omitted limit, and both as the limit
    100; an omitted state filter is the filter all, and omitted options are
    both defaults. With the limit 0 at most 100 records are returned, and
    as many as 100 when the provider has them. *)
Theorem getUserPullRequests_defaults
    (graphql : string -> Z -> option string -> Answer Response)
    (username : string) (fuel : nat) :
  (forall st,
     getUserPullRequests graphql username
       (Some (mkOptions st (Some 0%Z))) fuel
     = getUserPullRequests graphql username (Some (mkOptions st None)) fuel
     /\ getUserPullRequests graphql username
          (Some (mkOptions st (Some 0%Z))) fuel
        = getUserPullRequests graphql username
            (Some (mkOptions st (Some 100%Z))) fuel
     /\ limit_of (Some (mkOptions st (Some 0%Z))) = 100%Z
     /\ forall prs,
          getUserPullRequests graphql username
            (Some (mkOptions st (Some 0%Z))) fuel = Some (Ok prs) ->
          (length prs <= 100)%nat)
  /\ (forall l,
        getUserPullRequests graphql username (Some (mkOptions None l)) fuel
        = getUserPullRequests graphql username
            (Some (mkOptions (Some all) l)) fuel
        /\ stateFilter_of (Some (mkOptions None l)) = all)
  /\ getUserPullRequests graphql username None fuel
     = getUserPullRequests graphql username
         (Some (mkOptions (Some all) (Some 100%Z))) fuel
  /\ (exists prs,
        getUserPullRequests (pagedProvider (alice_has (merged_prs 250)))
          "alice" (Some (mkOptions None (Some 0%Z))) 1 = Some (Ok prs)
        /\ length prs = 100%nat).
Proof.
  split; [|split; [|split]].
  - intro st. repeat split.
    intros prs H. apply getUserPullRequests_fetched in H.
    destruct H as [_ L]. exact L.
  - intro l. split; reflexivity.
  - reflexivity.
  - eexists. split; [vm_compute; reflexivity|reflexivity].
Qed.

Lemma getUserPullRequests_defaults_witness :
  exists prs,
    getUserPullRequests (pagedProvider (alice_has (merged_prs 3))) "alice"
      (Some (mkOptions (Some all) (Some 0%Z))) 1 = Some (Ok prs)
    /\ (length prs <= 100)%nat.
Proof.
  destruct (getUserPullRequests (pagedProvider (alice_has (merged_prs 3)))
              "alice" (Some (mkOptions (Some all) (Some 0%Z))) 1)
    as [[prs|e]|] eqn:E;
    [|vm_compute in E; discriminate|vm_compute in E; discriminate].
  exists prs. split; [reflexivity|].
  exact (proj2 (proj2 (proj2
           (proj1 (getUserPullRequests_defaults
                     (pagedProvider (alice_has (merged_prs 3))) "alice" 1)
                  (Some all)))) prs E).
Defined.

(** * Further properties of the driver *)

(** * Further properties of the driver *)

(** ** The authorization decision as a whole *)

(** X1: The decision of github.ts 203-267 in terms of what the provider
    answers: the caller is taken as owner exactly when the logins agree,
    or the repository belongs to an organization and either the caller is
    an admin collaborator whose membership lookup fails or answers active
    admin, or the permission lookup fails and the membership lookup answers
    active admin. The ownership type tells the three ways apart, and is
    empty exactly when the caller is not taken as owner. *)
Theorem checkOwnership_decision (w : World) (ri : RepoIdentifier)
    (cu : CurrentUser) (rd : RepoData) (s : State) :
  let perm :=
    repos_getCollaboratorPermissionLevel w (ri_owner ri) (ri_repo ri)
      (cu_username cu) in
  let mem :=
    orgs_getMembershipForUser w (login (rd_owner rd)) (cu_username cu) in
  let direct := login (rd_owner rd) = cu_username cu in
  let org := owner_type (rd_owner rd) = "Organization" in
  let admin_collaborator :=
    exists p, perm = Resolved p /\ permission p = "admin" in
  let not_collaborator := exists st msg, perm = Rejected st msg in
  let active_member :=
    exists m, mem = Resolved m /\ role m = "admin" /\ state m = "active" in
  let no_membership := exists st msg, mem = Rejected st msg in
  exists isOwner ty s',
    run w (checkOwnership ri cu rd) s = (Ok (isOwner, ty), s') /\
    (ty = "repository owner" <-> direct) /\
    (ty = "organization owner" <->
       ~ direct /\ org /\ active_member /\
       (admin_collaborator \/ not_collaborator)) /\
    (ty = "repository admin" <->
       ~ direct /\ org /\ admin_collaborator /\ no_membership) /\
    (isOwner = true <-> In ty ownership_types) /\
    (isOwner = false <-> ty = "").
Proof.
  cbv zeta. unfold checkOwnership, active_admin, ownership_types.
  destruct (String.eqb_spec (login (rd_owner rd)) (cu_username cu))
    as [Hd|Hd].
  { decision_leaf. }
  destruct (String.eqb_spec (owner_type (rd_owner rd)) "Organization")
    as [Ho|Ho].
  2:{ decision_leaf. }
  cbn [run try_catch bind await].
  destruct (repos_getCollaboratorPermissionLevel w _ _ _) as [p|pst pmsg];
    cbn [run try_catch bind await].
  - destruct (String.eqb_spec (permission p) "admin") as [Hp|Hp];
      cbn [run try_catch bind await].
    + destruct (orgs_getMembershipForUser w _ _) as [m|mst mmsg];
        cbn [run try_catch bind await].
      * destruct (String.eqb_spec (role m) "admin") as [Hr|Hr];
          [destruct (String.eqb_spec (state m) "active") as [Hs|Hs]|];
          cbn [andb run]. 
        -- decision_leaf.
        -- decision_leaf.
        -- decision_leaf.
      * decision_leaf.
    + decision_leaf.
  - destruct (orgs_getMembershipForUser w _ _) as [m|mst mmsg];
      cbn [run try_catch bind await].
    + destruct (String.eqb_spec (role m) "admin") as [Hr|Hr];
        [destruct (String.eqb_spec (state m) "active") as [Hs|Hs]|];
        cbn [andb run].
      * decision_leaf.
      * decision_leaf.
      * decision_leaf.
    + decision_leaf.
Qed.

(** X2: The decision makes at most one permission lookup and at most one
    membership lookup, none at all for the direct owner or for a repository
    that does not belong to an organization; the permission lookup is for
    the parsed owner and repository and the authenticated login, the
    membership lookup for the repository owner's login and the
    authenticated login, and the membership lookup is skipped exactly when
    the permission lookup answers a level other than admin. *)
Theorem checkOwnership_lookups (w : World) (ri : RepoIdentifier)
    (cu : CurrentUser) (rd : RepoData) (s : State) :
  let permCall :=
    CallReposGetCollaboratorPermissionLevel (ri_owner ri) (ri_repo ri)
      (cu_username cu) in
  let memCall :=
    CallOrgsGetMembershipForUser (login (rd_owner rd)) (cu_username cu) in
  let s' := snd (run w (checkOwnership ri cu rd) s) in
  db s' = db s /\
  exists l,
    log s' = log s ++ l /\
    (l = [] \/ l = [permCall] \/ l = [permCall; memCall]) /\
    (l = [] <->
       login (rd_owner rd) = cu_username cu \/
       owner_type (rd_owner rd) <> "Organization") /\
    (l = [permCall] <->
       login (rd_owner rd) <> cu_username cu /\
       owner_type (rd_owner rd) = "Organization" /\
       exists p,
         repos_getCollaboratorPermissionLevel w (ri_owner ri) (ri_repo ri)
           (cu_username cu) = Resolved p /\ permission p <> "admin").
Proof.
  cbv zeta. unfold checkOwnership.
  destruct (String.eqb_spec (login (rd_owner rd)) (cu_username cu))
    as [Hd|Hd].
  { split; [reflexivity|]. exists []. simpl. rewrite app_nil_r.
    repeat split; auto; intros; decision_fwd; try contradiction. }
  destruct (String.eqb_spec (owner_type (rd_owner rd)) "Organization")
    as [Ho|Ho].
  2:{ split; [reflexivity|]. exists []. simpl. rewrite app_nil_r.
      repeat split; auto; intros; decision_fwd; try contradiction. }
  cbn [run try_catch bind await].
  destruct (repos_getCollaboratorPermissionLevel w _ _ _) as [p|pst pmsg];
    cbn [run try_catch bind await].
  - destruct (String.eqb_spec (permission p) "admin") as [Hp|Hp];
      cbn [run try_catch bind await].
    + match goal with
      | |- context [run w ?q ?s2] =>
          assert (Hs : snd (run w q s2) = s2)
      end.
      { destruct (orgs_getMembershipForUser w _ _) as [m|mst mmsg]; simpl;
          [destruct (active_admin m)|]; reflexivity. }
      rewrite Hs. split; [reflexivity|]. eexists. simpl.
      rewrite <- app_assoc. split; [reflexivity|]. simpl.
      repeat split; auto; intros; decision_fwd; try contradiction.
    + split; [reflexivity|]. eexists. simpl. split; [reflexivity|].
      repeat split; auto; intros; decision_fwd; try contradiction; eauto.
  - match goal with
    | |- context [run w ?q ?s2] =>
        assert (Hs : snd (run w q s2) = s2)
    end.
    { destruct (orgs_getMembershipForUser w _ _) as [m|mst mmsg]; simpl;
        [destruct (active_admin m)|]; reflexivity. }
    rewrite Hs. split; [reflexivity|]. eexists. simpl.
    rewrite <- app_assoc. split; [reflexivity|]. simpl.
    repeat split; auto; intros; decision_fwd; try contradiction.
Qed.

(** ** Malformed identifiers *)

(** X3: An identifier the parser rejects is rejected before anything is asked
    of the provider, the cache or the database: [verifyOwnership],
    [getRepo] and [getRepoPermissions] fail with the invalid-format error
    in the state they were called in. *)
Theorem malformed_identifier_no_call (w : World) (identifier : string)
    (ctx : Context) (pid : string) (s : State) (e : Error) :
  parseRepoIdentifier identifier = Err e ->
  run w (verifyOwnership identifier ctx pid) s = (Err invalid_format, s)
  /\ run w (getRepo identifier) s = (Err invalid_format, s)
  /\ run w (getRepoPermissions identifier) s = (Err invalid_format, s).
Proof.
  intro H. pose proof (parse_error _ _ H) as ->.
  rewrite run_verifyOwnership, H.
  unfold getRepo, getRepoPermissions. rewrite !run_bind, H.
  repeat split; reflexivity.
Qed.

Lemma malformed_identifier_no_call_witness :
  run world_owner (verifyOwnership "octocat" ctx_u1 "p1") (fresh db_unclaimed)
  = (Err invalid_format, fresh db_unclaimed).
Proof.
  exact (proj1 (malformed_identifier_no_call world_owner "octocat" ctx_u1
                  "p1" (fresh db_unclaimed) invalid_format eq_refl)).
Defined.

(** ** What a call does to the database *)

Lemma checkOwnership_type (w : World) (ri : RepoIdentifier)
    (cu : CurrentUser) (rd : RepoData) (s s' : State) (ty : string) :
  run w (checkOwnership ri cu rd) s = (Ok (true, ty), s') ->
  In ty ownership_types.
Proof.
  unfold checkOwnership, ownership_types.
  destruct (String.eqb _ _); [simpl; intro H; injection H as <- _; auto|].
  destruct (String.eqb _ _); [|simpl; discriminate].
  cbn [run try_catch bind await].
  destruct (repos_getCollaboratorPermissionLevel w _ _ _) as [p|pst pmsg];
    cbn [run try_catch bind await].
  - destruct (String.eqb _ _); cbn [run try_catch bind await];
      [|discriminate].
    destruct (orgs_getMembershipForUser w _ _) as [m|mst mmsg];
      cbn [run try_catch bind await].
    + destruct (active_admin m); simpl; intro H; [|discriminate].
      injection H as <- _. auto.
    + simpl. intro H. injection H as <- _. auto.
  - destruct (orgs_getMembershipForUser w _ _) as [m|mst mmsg];
      cbn [run try_catch bind await]; [|discriminate].
    destruct (active_admin m); simpl; intro H; [|discriminate].
    injection H as <- _. auto.
Qed.

(** The rows an update leaves for project [pid] all have an owner. *)
Lemma update_claims_all (d : DB) (pid uid : string) (now : Z) :
  filter (claimable pid)
         (projects (fst (db_update_project d pid (Some uid) now))) = [].
Proof.
  assert (H : forall p, claimable pid (set_owner (Some uid) now p) = false).
  { intro p. unfold claimable. simpl. apply andb_false_r. }
  simpl. induction (projects d) as [|p l IH]; [reflexivity|].
  cbn [map filter]. destruct (claimable pid p) eqn:E.
  - rewrite H. exact IH.
  - rewrite E. exact IH.
Qed.

Lemma update_keeps_others (d : DB) (pid : string) (o : option string)
    (now : Z) (p : Project) :
  In p (projects d) -> claimable pid p = false ->
  In p (projects (fst (db_update_project d pid o now))).
Proof.
  intros Hin Hc. simpl. apply in_map_iff. exists p. rewrite Hc. auto.
Qed.

(** X4: A successful call, in full: it returns the first updated row, which
    has the claimed id, the session's user as owner and the time of the
    call; every row that had an owner or another id is still there,
    unchanged, no row is added or removed, and afterwards no row of the
    project is without owner; exactly one claim row is appended, a success
    row for the project and the session's user whose verification method is
    the ownership type (one of the three), and whose repository URL is
    built from the first two segments of the identifier. *)
Theorem verifyOwnership_success_effects (w : World) (identifier : string)
    (ctx : Context) (pid : string) (s s' : State) (r : VerifyResult) :
  run w (verifyOwnership identifier ctx pid) s = (Ok r, s') ->
  exists sess ri row,
    session ctx = Some sess /\
    parseRepoIdentifier identifier = Ok ri /\
    vr_success r = true /\
    id (vr_project r) = pid /\
    ownerId (vr_project r) = Some (userId sess) /\
    updatedAt (vr_project r) = date_now w /\
    In (vr_project r) (projects (db s')) /\
    In (vr_ownershipType r) ownership_types /\
    (forall p, In p (projects (db s)) -> claimable pid p = false ->
               In p (projects (db s'))) /\
    length (projects (db s')) = length (projects (db s)) /\
    filter (claimable pid) (projects (db s')) = [] /\
    claims (db s') = claims (db s) ++ [row] /\
    projectId row = pid /\ claim_userId row = userId sess /\
    success row = true /\ errorReason row = None /\
    verificationMethod row = vr_ownershipType r /\
    verifiedAs (verificationDetails row) = vr_verifiedAs r /\
    ownershipType (verificationDetails row) = Some (vr_ownershipType r) /\
    repositoryUrl (verificationDetails row)
    = Some ("https://github.com/" ++ ri_owner ri ++ "/" ++ ri_repo ri)%string.
Proof.
  intro Hrun.
  destruct (verifyOwnership_cases w identifier ctx pid s)
    as [[e [s1 [Hf Hout]]]|[[ri [cu [rd [s2 [ty [s3 [Hres [Hchk Hout]]]]]]]]
                           |[ri [cu [rd [s2 [ty [s3 [Hres [Hchk Hout]]]]]]]]]];
    rewrite Hrun in Hout.
  - discriminate.
  - exfalso. unfold deny, session_userId in Hout.
    destruct (session ctx); simpl in Hout; discriminate.
  - destruct (decision_state _ _ _ _ _ _ _ _ _ Hres Hchk) as [D _].
    destruct (filter (claimable pid) (projects (db s3))) as [|p0 rest] eqn:F.
    { rewrite (run_assign_conflict _ _ _ _ _ _ _ _ F) in Hout. discriminate. }
    destruct (session ctx) as [sess|] eqn:Hs.
    2:{ exfalso.
        destruct (run_assign_no_session w ctx pid ri cu rd ty s3 Hs)
          as [e [He _]].
        rewrite <- Hout in He. discriminate. }
    rewrite (run_assign_session w ctx pid ri cu rd ty sess s3 p0 rest Hs F)
      in Hout.
    injection Hout as -> ->.
    assert (Hp0 : In p0 (projects (db s3)) /\ claimable pid p0 = true).
    { apply filter_In. rewrite F. left. reflexivity. }
    destruct Hp0 as [Hin0 Hc0].
    exists sess, ri, (success_claim pid (userId sess) ri cu rd ty).
    cbn [vr_success vr_project vr_ownershipType vr_verifiedAs db].
    split; [reflexivity|]. split; [exact (proj1 Hres)|].
    split; [reflexivity|].
    split; [apply claimable_spec in Hc0; simpl; tauto|].
    split; [reflexivity|]. split; [reflexivity|].
    split.
    { simpl. apply in_map_iff. exists p0. rewrite Hc0. auto. }
    split; [exact (checkOwnership_type _ _ _ _ _ _ _ Hchk)|].
    split.
    { intros p Hin Hc. rewrite <- D in Hin.
      apply (update_keeps_others (db s3) pid _ _ p Hin Hc). }
    split; [simpl; rewrite length_map, D; reflexivity|].
    split; [apply (update_claims_all (db s3) pid (userId sess))|].
    split; [simpl; rewrite D; reflexivity|].
    repeat split.
Qed.

Lemma verifyOwnership_success_effects_witness :
  exists sess ri row,
    session ctx_u1 = Some sess /\
    parseRepoIdentifier "acme/widgets" = Ok ri /\
    claims (db (snd (run world_org_admin
                       (verifyOwnership "acme/widgets" ctx_u1 "p1")
                       (fresh db_unclaimed)))) = [row] /\
    verificationMethod row = "organization owner" /\
    repositoryUrl (verificationDetails row)
    = Some "https://github.com/acme/widgets".
Proof.
  destruct (verifyOwnership_success_effects world_org_admin "acme/widgets"
              ctx_u1 "p1" (fresh db_unclaimed) _ _ eq_refl)
    as [sess [ri [row H]]].
  decompose [and] H. exists sess, ri, row.
  repeat split; try assumption.
  match goal with
  | Hp : parseRepoIdentifier _ = Ok ri |- _ => injection Hp as <-
  end.
  assumption.
Defined.

Lemma run_assign_anonymous (w : World) (ctx : Context) (pid : string)
    (ri : RepoIdentifier) (cu : CurrentUser) (rd : RepoData) (ty : string)
    (s : State) (p0 : Project) (rest : list Project) :
  session ctx = None ->
  filter (claimable pid) (projects (db s)) = p0 :: rest ->
  exists m,
    fst (run w (assign ctx pid ri cu rd ty) s) = Err (TypeError m).
Proof.
  intros Hs F. unfold assign, session_userId, session_userId_or_null.
  rewrite Hs. cbn [run]. unfold db_update_project. rewrite F. simpl. eauto.
Qed.

(** X5: A call that fails assigns nothing: every project keeps its id and
    owner, and no success row is written. The only row a failing call can
    write is the failing row of a FORBIDDEN, which leaves the projects as
    they were; a CONFLICT leaves the whole database as it was. *)
Theorem failed_call_assigns_nothing (w : World) (identifier : string)
    (ctx : Context) (pid : string) (s s' : State) (e : Error) :
  run w (verifyOwnership identifier ctx pid) s = (Err e, s') ->
  map (fun p => (id p, ownerId p)) (projects (db s'))
  = map (fun p => (id p, ownerId p)) (projects (db s))
  /\ (claims (db s') = claims (db s) \/
      exists row msg,
        e = TRPCError FORBIDDEN msg /\ success row = false /\
        claims (db s') = claims (db s) ++ [row] /\
        projects (db s') = projects (db s))
  /\ (e = already_claimed -> db s' = db s).
Proof.
  intro Hrun.
  destruct (verifyOwnership_cases w identifier ctx pid s)
    as [[e1 [s1 [Hf Hout]]]|[[ri [cu [rd [s2 [ty [s3 [Hres [Hchk Hout]]]]]]]]
                            |[ri [cu [rd [s2 [ty [s3 [Hres [Hchk Hout]]]]]]]]]];
    rewrite Hrun in Hout.
  - injection Hout as <- <-.
    destruct (resolution_fails_state _ _ _ _ _ Hf) as [D _]. rewrite D.
    split; [reflexivity|]. split; [left; reflexivity|].
    intro He. exfalso.
    exact (resolution_error_kind _ _ _ _ _ Hf _ _ He).
  - destruct (decision_state _ _ _ _ _ _ _ _ _ Hres Hchk) as [D _].
    destruct (session ctx) as [sess|] eqn:Hs.
    + rewrite (run_deny_session w ctx pid cu rd sess s3 Hs) in Hout.
      injection Hout as -> ->. simpl. rewrite D.
      split; [reflexivity|]. split; [|discriminate].
      right. exists (denied_claim pid (userId sess) cu rd), (denied_message cu rd).
      repeat split.
    + destruct (run_deny_no_session w ctx pid cu rd s3 Hs) as [m Hm].
      rewrite Hm in Hout. injection Hout as -> ->. rewrite D.
      split; [reflexivity|]. split; [left; reflexivity|discriminate].
  - destruct (decision_state _ _ _ _ _ _ _ _ _ Hres Hchk) as [D _].
    destruct (filter (claimable pid) (projects (db s3))) as [|p0 rest] eqn:F.
    + rewrite (run_assign_conflict _ _ _ _ _ _ _ _ F) in Hout.
      injection Hout as -> ->. simpl. rewrite D.
      split; [reflexivity|]. split; [left; reflexivity|reflexivity].
    + destruct (session ctx) as [sess|] eqn:Hs.
      * rewrite (run_assign_session w ctx pid ri cu rd ty sess s3 p0 rest
                   Hs F) in Hout. discriminate.
      * destruct (run_assign_anonymous w ctx pid ri cu rd ty s3 p0 rest Hs F)
          as [m Hm].
        destruct (run_assign_no_session w ctx pid ri cu rd ty s3 Hs)
          as [e' [_ Hd]].
        rewrite <- Hout in Hm, Hd. simpl in Hm, Hd. injection Hm as ->.
        rewrite Hd, <- D. simpl.
        split; [apply update_null_owner|].
        split; [left; reflexivity|discriminate].
Qed.

Lemma failed_call_assigns_nothing_witness :
  db (snd (run world_owner (verifyOwnership "octocat/Hello-World" ctx_u2 "p1")
             (fresh db_claimed))) = db (fresh db_claimed).
Proof.
  exact (proj2 (proj2
           (failed_call_assigns_nothing world_owner "octocat/Hello-World"
              ctx_u2 "p1" (fresh db_claimed) _ already_claimed eq_refl))
           eq_refl).
Defined.

(** Against a project none of whose rows is without owner every call
    fails, leaves the projects as they are and writes no success row. *)
Lemma claimed_project_rejects (w : World) (identifier : string)
    (ctx : Context) (pid : string) (s : State) :
  filter (claimable pid) (projects (db s)) = [] ->
  let out := run w (verifyOwnership identifier ctx pid) s in
  (exists e, fst out = Err e) /\
  projects (db (snd out)) = projects (db s) /\
  success_rows pid (db (snd out)) = success_rows pid (db s) /\
  (forall ri cu rd s2 ty s3,
     resolves w identifier s ri cu rd s2 ->
     run w (checkOwnership ri cu rd) s2 = (Ok (true, ty), s3) ->
     fst out = Err already_claimed /\ db (snd out) = db s).
Proof.
  intro F. cbv zeta.
  destruct (verifyOwnership_cases w identifier ctx pid s)
    as [[e1 [s1 [Hf Hout]]]|[[ri [cu [rd [s2 [ty [s3 [Hres [Hchk Hout]]]]]]]]
                            |[ri [cu [rd [s2 [ty [s3 [Hres [Hchk Hout]]]]]]]]]];
    rewrite Hout.
  - destruct (resolution_fails_state _ _ _ _ _ Hf) as [D _]. simpl.
    rewrite D. split; [eauto|]. split; [reflexivity|]. split; [reflexivity|].
    intros ri cu rd s2 ty s3 Hres _. exfalso.
    exact (resolution_fails_not_resolves _ _ _ _ _ _ _ _ _ Hf Hres).
  - destruct (decision_state _ _ _ _ _ _ _ _ _ Hres Hchk) as [D _].
    assert (Hno : forall ri' cu' rd' s2' ty' s3',
               resolves w identifier s ri' cu' rd' s2' ->
               run w (checkOwnership ri' cu' rd') s2' = (Ok (true, ty'), s3') ->
               False).
    { intros ri' cu' rd' s2' ty' s3' Hres' Hchk'.
      destruct (resolves_unique _ _ _ _ _ _ _ _ _ _ _ Hres Hres')
        as [<- [<- [<- <-]]].
      rewrite Hchk in Hchk'. discriminate. }
    destruct (session ctx) as [sess|] eqn:Hs.
    + rewrite (run_deny_session w ctx pid cu rd sess s3 Hs). simpl.
      rewrite D. split; [eauto|]. split; [reflexivity|]. split.
      * unfold success_rows. simpl. rewrite filter_app. simpl.
        apply app_nil_r.
      * intros. exfalso. eauto.
    + destruct (run_deny_no_session w ctx pid cu rd s3 Hs) as [m Hm].
      rewrite Hm. simpl. rewrite D. split; [eauto|].
      split; [reflexivity|]. split; [reflexivity|].
      intros. exfalso. eauto.
  - destruct (decision_state _ _ _ _ _ _ _ _ _ Hres Hchk) as [D _].
    rewrite (run_assign_conflict w ctx pid ri cu rd ty s3)
      by (rewrite D; exact F).
    simpl. rewrite D. split; [eauto|]. split; [reflexivity|].
    split; [reflexivity|]. intros. split; reflexivity.
Qed.

(** X6: Claiming twice: once a call has succeeded for a project, every later
    call for that project fails, whoever makes it and whatever the provider
    answers; it leaves the projects as they are and writes no success row,
    and when it passes the ownership checks it fails with CONFLICT and
    leaves the whole database as it is. *)
Theorem second_claim_fails (w1 : World) (identifier1 : string)
    (ctx1 : Context) (pid : string) (s s1 : State) (r : VerifyResult)
    (w2 : World) (identifier2 : string) (ctx2 : Context) :
  run w1 (verifyOwnership identifier1 ctx1 pid) s = (Ok r, s1) ->
  let out := run w2 (verifyOwnership identifier2 ctx2 pid) s1 in
  (exists e, fst out = Err e) /\
  projects (db (snd out)) = projects (db s1) /\
  success_rows pid (db (snd out)) = success_rows pid (db s1) /\
  (forall ri cu rd s2 ty s3,
     resolves w2 identifier2 s1 ri cu rd s2 ->
     run w2 (checkOwnership ri cu rd) s2 = (Ok (true, ty), s3) ->
     fst out = Err already_claimed /\ db (snd out) = db s1).
Proof.
  intro Hrun.
  assert (F : filter (claimable pid) (projects (db s1)) = []).
  { destruct (verifyOwnership_cases w1 identifier1 ctx1 pid s)
      as [[e [s0 [Hf Hout]]]|[[ri [cu [rd [s2 [ty [s3 [Hres [Hchk Hout]]]]]]]]
                             |[ri [cu [rd [s2 [ty [s3 [Hres [Hchk Hout]]]]]]]]]];
      rewrite Hrun in Hout.
    - discriminate.
    - exfalso. unfold deny, session_userId in Hout.
      destruct (session ctx1); simpl in Hout; discriminate.
    - destruct (filter (claimable pid) (projects (db s3))) as [|p0 rest] eqn:F.
      { rewrite (run_assign_conflict _ _ _ _ _ _ _ _ F) in Hout.
        discriminate. }
      destruct (session ctx1) as [sess|] eqn:Hs.
      + rewrite (run_assign_session w1 ctx1 pid ri cu rd ty sess s3 p0 rest
                   Hs F) in Hout.
        injection Hout as _ ->.
        apply (update_claims_all (db s3) pid (userId sess)).
      + exfalso.
        destruct (run_assign_no_session w1 ctx1 pid ri cu rd ty s3 Hs)
          as [e [He _]].
        rewrite <- Hout in He. discriminate. }
  exact (claimed_project_rejects w2 identifier2 ctx2 pid s1 F).
Qed.

Lemma second_claim_fails_witness :
  fst (run world_org_admin (verifyOwnership "acme/widgets" ctx_u2 "p1")
         (snd (run world_owner
                 (verifyOwnership "octocat/Hello-World" ctx_u1 "p1")
                 (fresh db_unclaimed))))
  = Err already_claimed.
Proof.
  destruct (second_claim_fails world_owner "octocat/Hello-World" ctx_u1 "p1"
              (fresh db_unclaimed) _ _ world_org_admin "acme/widgets" ctx_u2
              eq_refl) as [_ [_ [_ H]]].
  refine (proj1 (H (mkRepoIdentifier "acme" "widgets")
                   (mkCurrentUser "583231" "alice")
                   (mkRepoData 1296269 "widgets" None
                      "https://github.com/acme/widgets" false acme)
                   _ "organization owner" _ _ eq_refl)).
  split; [reflexivity|]. eexists. split; reflexivity.
Defined.

(** ** Racing claims *)

Lemma before_update_quiet (pid : string) (p : Prog VerifyResult) :
  before_update p -> ticket pid p = false /\ succeeded pid p = false.
Proof.
  destruct p; simpl; try tauto.
  intros [H _]. rewrite H. auto.
Qed.

Lemma before_update_bind_calls {A : Type} (p : Prog A)
    (f : A -> Prog VerifyResult) :
  emits is_call p -> (forall a, before_update (f a)) ->
  before_update (bind p f).
Proof.
  intros Hp Hf.
  induction p as [a|e|k IH|key k IH|key v ttl k IH|o r k IH|o r u k IH
                 |o u k IH|k IH|row k IH|pid o now k IH];
    simpl in *; auto;
    try (destruct Hp as [H0 Hk]; try discriminate; auto).
  destruct (Hp []) as [H0 _]. discriminate.
Qed.

Lemma before_update_deny (ctx : Context) (pid : string) (cu : CurrentUser)
    (rd : RepoData) :
  before_update (deny ctx pid cu rd).
Proof.
  unfold deny, session_userId. destruct (session ctx); simpl; auto.
Qed.

Lemma before_update_assign (ctx : Context) (pid : string)
    (ri : RepoIdentifier) (cu : CurrentUser) (rd : RepoData) (ty : string) :
  before_update (assign ctx pid ri cu rd ty).
Proof.
  unfold assign. cbn [before_update]. intro now. split; [exact I|].
  intros [|first rest] Hne Hids; [contradiction|].
  unfold session_userId, session_userId_or_null.
  destruct (session ctx) as [sess|]; simpl; [|left; eauto].
  right. split; [discriminate|]. do 2 eexists. split; [reflexivity|].
  simpl. repeat split. apply Hids. left. reflexivity.
Qed.

Lemma before_update_verifyOwnership (identifier : string) (ctx : Context)
    (pid : string) :
  before_update (verifyOwnership identifier ctx pid).
Proof.
  unfold verifyOwnership.
  apply before_update_bind_calls; [apply emits_settle|]. intro ri.
  apply before_update_bind_calls;
    [exact (emits_weaken _ _ _ plain_call_is_call emits_getCurrentUser)|].
  intro cu.
  apply before_update_bind_calls;
    [exact (emits_weaken _ _ _ plain_call_is_call (emits_getRepo identifier))|].
  intro rd.
  apply before_update_bind_calls; [apply emits_checkOwnership|].
  intros [isOwner ty]. destruct isOwner; cbn [negb].
  - apply before_update_assign.
  - apply before_update_deny.
Qed.

(** A row without owner after an update was without owner before it. *)
Lemma update_claimable_back (d : DB) (pid pid' : string)
    (o : option string) (now : Z) :
  filter (claimable pid) (projects (fst (db_update_project d pid' o now)))
  <> [] ->
  filter (claimable pid) (projects d) <> [].
Proof.
  simpl. intros H F. apply H. clear H.
  induction (projects d) as [|p l IH]; [reflexivity|].
  simpl in F. destruct (claimable pid p) eqn:E; [discriminate|].
  cbn [map filter]. rewrite (IH F).
  destruct (claimable pid' p) eqn:E'; [|rewrite E; reflexivity].
  destruct (claimable pid (set_owner o now p)) eqn:E''; [|reflexivity].
  exfalso. apply claimable_spec in E', E''. simpl in E''.
  assert (claimable pid p = true) by (apply claimable_spec; tauto).
  congruence.
Qed.

Lemma success_rows_insert (pid : string) (d : DB) (row : ProjectClaim) :
  success_rows pid (db_insert_claim d row)
  = success_rows pid d
    ++ (if success row && String.eqb (projectId row) pid then [row] else []).
Proof. unfold success_rows. simpl. rewrite filter_app. reflexivity. Qed.

(** One call of one thread of a race, seen from project [pid]: it is
    quiet, or it takes the project (its update returns rows), or it records
    the success it took. *)
Lemma step_once (pid : string) (w : World) (p p' : Prog VerifyResult)
    (d d' : DB) :
  step w p d = Some (p', d') ->
  thread_state p ->
  thread_state p' /\ succeeded pid p = false /\
  ((ticket pid p = false /\ ticket pid p' = false /\
    succeeded pid p' = false /\
    success_rows pid d' = success_rows pid d /\
    (filter (claimable pid) (projects d') <> [] ->
     filter (claimable pid) (projects d) <> []))
   \/ (ticket pid p = false /\ ticket pid p' = true /\
       succeeded pid p' = false /\
       success_rows pid d' = success_rows pid d /\
       filter (claimable pid) (projects d) <> [] /\
       filter (claimable pid) (projects d') = [])
   \/ (ticket pid p = true /\ ticket pid p' = false /\
       succeeded pid p' = true /\
       length (success_rows pid d') = S (length (success_rows pid d)) /\
       projects d' = projects d)).
Proof.
  intros Hstep [Hb|[[row [r [-> [Hsucc Hid]]]]|[r ->]]].
  - assert (Hquiet : forall q,
               before_update q -> d' = d -> p' = q ->
               thread_state p' /\ succeeded pid p = false /\
               ((ticket pid p = false /\ ticket pid p' = false /\
                 succeeded pid p' = false /\
                 success_rows pid d' = success_rows pid d /\
                 (filter (claimable pid) (projects d') <> [] ->
                  filter (claimable pid) (projects d) <> []))
                \/ (ticket pid p = false /\ ticket pid p' = true /\
                    succeeded pid p' = false /\
                    success_rows pid d' = success_rows pid d /\
                    filter (claimable pid) (projects d) <> [] /\
                    filter (claimable pid) (projects d') = [])
                \/ (ticket pid p = true /\ ticket pid p' = false /\
                    succeeded pid p' = true /\
                    length (success_rows pid d')
                    = S (length (success_rows pid d)) /\
                    projects d' = projects d))).
    { intros q Hq -> ->.
      destruct (before_update_quiet pid p Hb) as [T S0].
      destruct (before_update_quiet pid q Hq) as [T' S'].
      split; [left; exact Hq|]. split; [exact S0|]. left. auto. }
    destruct p as [a|e|k|key k|key v ttl k|o r k|o r u k|o u k|k|row k
                  |pid' o now k];
      simpl in Hstep, Hb; try discriminate.
    + injection Hstep as <- <-.
      apply (Hquiet _ (Hb (users_getAuthenticated w))); reflexivity.
    + injection Hstep as <- <-.
      apply (Hquiet _ (Hb (cache_get w key))); reflexivity.
    + injection Hstep as <- <-. apply (Hquiet _ Hb); reflexivity.
    + injection Hstep as <- <-.
      apply (Hquiet _ (Hb (repos_get w o r))); reflexivity.
    + injection Hstep as <- <-.
      apply (Hquiet _ (Hb (repos_getCollaboratorPermissionLevel w o r u)));
        reflexivity.
    + injection Hstep as <- <-.
      apply (Hquiet _ (Hb (orgs_getMembershipForUser w o u))); reflexivity.
    + injection Hstep as <- <-.
      apply (Hquiet _ (Hb (date_now w))); reflexivity.
    + injection Hstep as <- <-. destruct Hb as [Hf Hk].
      destruct (before_update_quiet pid k Hk) as [T' S'].
      split; [left; exact Hk|]. split; [reflexivity|]. left.
      simpl. rewrite Hf. simpl. split; [reflexivity|].
      split; [exact T'|]. split; [exact S'|].
      split; [|auto]. rewrite success_rows_insert, Hf. apply app_nil_r.
    + injection Hstep as <- <-. destruct Hb as [Hnil Hrows].
      set (rows := map (set_owner o now)
                     (filter (claimable pid') (projects d))) in *.
      pose proof (update_claimable_back d pid pid' o now) as Hback.
      simpl in Hback.
      destruct rows as [|first rest] eqn:R.
      * destruct (before_update_quiet pid _ Hnil) as [T' S'].
        split; [left; exact Hnil|]. split; [reflexivity|]. left.
        repeat split; auto.
      * assert (Hids : forall q, In q (first :: rest) -> id q = pid').
        { intros q Hq. rewrite <- R in Hq. unfold rows in Hq.
          apply in_map_iff in Hq. destruct Hq as [q0 [<- Hq0]].
          apply filter_In in Hq0. destruct Hq0 as [_ Hc].
          apply claimable_spec in Hc. simpl. tauto. }
        destruct (Hrows (first :: rest) ltac:(discriminate) Hids)
          as [[e He]|[Ho [row [r [He [Hsucc [Hpid Hid]]]]]]]; rewrite He.
        -- split; [left; exact I|]. split; [reflexivity|]. left.
           repeat split; auto.
        -- split; [right; left; exists row, r; repeat split; congruence|].
           split; [reflexivity|].
           simpl. rewrite Hsucc, Hpid. simpl.
           destruct (String.eqb_spec pid' pid) as [->|Hne].
           ++ right. left. repeat split; auto.
              ** intro F. unfold rows in R.
                 rewrite F in R. discriminate.
              ** destruct o as [uid|]; [|contradiction].
                 apply (update_claims_all d pid uid now).
           ++ left. repeat split; auto.
  - simpl in Hstep. injection Hstep as <- <-.
    split; [right; right; eauto|]. split; [reflexivity|].
    simpl. rewrite Hsucc, Hid. simpl.
    destruct (String.eqb (projectId row) pid) eqn:E.
    + right. right. repeat split; auto.
      rewrite success_rows_insert, Hsucc, E. simpl.
      rewrite length_app. simpl. lia.
    + left. repeat split; auto.
      rewrite success_rows_insert, Hsucc, E. apply app_nil_r.
  - discriminate.
Qed.

Lemma count_middle {A : Type} (f : A -> bool) (before after : list A)
    (x : A) :
  length (filter f (before ++ x :: after))
  = (length (filter f before) + Nat.b2n (f x) + length (filter f after))%nat.
Proof.
  rewrite filter_app, length_app. simpl. destruct (f x); simpl; lia.
Qed.

Lemma pool_step_once (pid : string) (c c' : DB * list Thread) :
  pool_step c c' -> once pid c -> once pid c'.
Proof.
  intros [d d' before after th p' Hstep] [Hall [Hle [Hnone Hret]]].
  unfold once, tickets, successes in *. simpl in *.
  rewrite !count_middle in Hle, Hnone, Hret. rewrite !count_middle.
  cbn [th_prog] in *.
  apply Forall_app in Hall. destruct Hall as [Hb Hrest].
  inversion Hrest as [|th0 after0 Hth Ha]; subst.
  destruct (step_once pid _ _ _ _ _ Hstep Hth) as [Hth' [S0 Hcase]].
  split.
  { apply Forall_app. split; [exact Hb|]. constructor; assumption. }
  rewrite S0 in Hret. simpl in Hret.
  destruct Hcase as [[T [T' [S' [R C]]]]|[[T [T' [S' [R [C C']]]]]
                                         |[T [T' [S' [R P]]]]]];
    rewrite T in *; rewrite T', S'; simpl in *.
  - rewrite R. split; [lia|]. split; [|lia]. intro H. apply Hnone. auto.
  - rewrite R. specialize (Hnone C). split; [lia|]. split; [|lia].
    intro H. contradiction.
  - rewrite R, P. split; [lia|]. split; [|lia].
    intro H. specialize (Hnone H). lia.
Qed.

Lemma reachable_once (pid : string) (c c' : DB * list Thread) :
  reachable c c' -> once pid c -> once pid c'.
Proof.
  induction 1 as [c|c1 c2 c3 Hstep _ IH]; [auto|].
  intro H. apply IH. eapply pool_step_once; eauto.
Qed.

Lemma before_update_counts (pid : string) (ths : list Thread) :
  (forall th, In th ths -> before_update (th_prog th)) ->
  tickets pid ths = 0%nat /\ successes pid ths = 0%nat.
Proof.
  unfold tickets, successes.
  induction ths as [|th l IH]; intro Hq; [auto|]. simpl.
  destruct (before_update_quiet pid _ (Hq th (or_introl eq_refl)))
    as [-> ->].
  apply IH. intros th' Hin. apply Hq. right. exact Hin.
Qed.

Lemma once_start (pid : string) (d0 : DB) (calls : list Call) :
  success_rows pid d0 = [] -> once pid (d0, map start calls).
Proof.
  intro H0.
  assert (Hq : forall th, In th (map start calls) ->
                          before_update (th_prog th)).
  { intros th Hin. apply in_map_iff in Hin. destruct Hin as [c [<- _]].
    apply before_update_verifyOwnership. }
  destruct (before_update_counts pid _ Hq) as [T S0].
  unfold once. simpl. rewrite T, S0, H0. simpl.
  split; [|split; [lia|split; [lia|lia]]].
  apply Forall_forall. intros th Hin. left. auto.
Qed.

(** X7: Exactly once: however many calls race for a project that has no
    success row yet, and however they interleave at their awaited calls,
    at most one success row for the project is ever written and at most one
    call returns success for it; the others that pass the checks find no
    row to update. *)
Theorem at_most_one_success (pid : string) (d0 : DB) (calls : list Call)
    (d : DB) (threads : list Thread) :
  success_rows pid d0 = [] ->
  reachable (d0, map start calls) (d, threads) ->
  (length (success_rows pid d) <= 1)%nat /\
  (successes pid threads <= length (success_rows pid d))%nat /\
  (successes pid threads <= 1)%nat.
Proof.
  intros H0 Hreach.
  destruct (reachable_once pid _ _ Hreach (once_start pid d0 calls H0))
    as [_ [Hle [_ Hret]]].
  simpl in *. lia.
Qed.

Lemma at_most_one_success_witness :
  (length (success_rows "p1"
             (fst (schedule race_schedule
                     (db_unclaimed, map start race_calls)))) <= 1)%nat
  /\ successes "p1"
       (snd (schedule race_schedule (db_unclaimed, map start race_calls)))
     = 1%nat.
Proof.
  split; [|reflexivity].
  apply (at_most_one_success "p1" db_unclaimed race_calls
           (fst (schedule race_schedule
                   (db_unclaimed, map start race_calls)))
           (snd (schedule race_schedule
                   (db_unclaimed, map start race_calls))) eq_refl).
  rewrite <- surjective_pairing. apply schedule_reachable.
Defined.

(** ** The repository lookup and the cache *)

(** X8: [getRepo] asks the cache under the key (github, repo, identifier): on
    a hit it returns the cached value with no call to the provider; on a
    miss it makes one [repos.get] for the first two segments of the
    identifier, and stores what it returns under the same key for 300
    seconds; when the provider rejects, the rejection propagates and nothing
    is stored. *)
Theorem getRepo_cache (w : World) (identifier : string) (s : State)
    (ri : RepoIdentifier) :
  parseRepoIdentifier identifier = Ok ri ->
  let key := mkCacheKey "github" "repo" identifier in
  let out := run w (getRepo identifier) s in
  db (snd out) = db s /\
  match cache_get w key with
  | Some v => fst out = Ok v /\ log (snd out) = log s ++ [CallCacheGet key]
  | None =>
      match repos_get w (ri_owner ri) (ri_repo ri) with
      | Resolved data =>
          let v :=
            mkRepoData (rg_id data) (rg_name data) (rg_description data)
              (rg_html_url data) (rg_private data) (rg_owner data) in
          fst out = Ok v /\
          log (snd out)
          = log s ++ [CallCacheGet key;
                      CallReposGet (ri_owner ri) (ri_repo ri);
                      CallCacheSet key v 300]
      | Rejected status message =>
          fst out = Err (RequestError status message) /\
          log (snd out)
          = log s ++ [CallCacheGet key;
                      CallReposGet (ri_owner ri) (ri_repo ri)]
      end
  end.
Proof.
  intro Hp. cbv zeta. unfold getRepo. rewrite run_bind, Hp.
  cbn [settle run]. unfold getCached, createCacheKey. cbn [run].
  destruct (cache_get w _) as [v|]; cbn [run bind].
  - simpl. auto.
  - destruct (repos_get w _ _) as [data|st msg]; simpl;
      rewrite <- !app_assoc; auto.
Qed.

Lemma getRepo_cache_witness :
  fst (run world_owner (getRepo "octocat/Hello-World") (fresh db_unclaimed))
  = Ok (mkRepoData 1296269 "Hello-World" None
          "https://github.com/octocat/Hello-World" false
          (mkRepoOwner "octocat" "User")).
Proof.
  exact (proj1 (proj2 (getRepo_cache world_owner "octocat/Hello-World"
                         (fresh db_unclaimed) _ eq_refl))).
Defined.

(** ** More on the pull requests of a user *)

Lemma or_undefined_not_empty (x : option string) :
  or_undefined x <> Some EmptyString.
Proof. destruct x as [[|c x]|]; discriminate. Qed.

(** X9: Every record returned is normalised: its state is one of open, closed
    and merged, in lower case, and its closing and merge timestamps are a
    non-empty string or absent, never the empty string; and with the filter
    open every record is open. *)
Theorem getUserPullRequests_normalised
    (graphql : string -> Z -> option string -> Answer Response)
    (username : string) (options : option Options) (fuel : nat)
    (prs : list UserPullRequestData) :
  getUserPullRequests graphql username options fuel = Some (Ok prs) ->
  Forall (fun pr =>
            In (pr_state pr) ["open"; "closed"; "merged"] /\
            pr_closedAt pr <> Some EmptyString /\
            pr_mergedAt pr <> Some EmptyString /\
            (stateFilter_of options = open -> pr_state pr = "open")) prs.
Proof.
  intro H. apply getUserPullRequests_fetched in H. destruct H as [F _].
  eapply Forall_impl; [|exact F]. intros pr [K [n [-> _]]]. cbv beta.
  split; [simpl; destruct (n_state n); simpl; auto|].
  split; [apply or_undefined_not_empty|].
  split; [apply or_undefined_not_empty|].
  intro Ho. rewrite Ho in K. apply String.eqb_eq. exact K.
Qed.

Lemma getUserPullRequests_normalised_witness :
  exists prs,
    scenario_e = Some (Ok prs) /\
    Forall (fun pr => pr_mergedAt pr <> Some EmptyString) prs.
Proof.
  destruct scenario_e as [[prs|e]|] eqn:E;
    [|vm_compute in E; discriminate|vm_compute in E; discriminate].
  exists prs. split; [reflexivity|].
  eapply Forall_impl;
    [|exact (getUserPullRequests_normalised _ _ _ _ _ E)].
  intros pr [_ [_ [H _]]]. exact H.
Defined.

Lemma fetchLoop_error
    (graphql : string -> Z -> option string -> Answer Response)
    (username : string) (limit : Z) (stateFilter : StateFilter)
    (fuel : nat) :
  forall allPRs more cursor e,
    fetchLoop graphql username limit stateFilter fuel allPRs more cursor
    = Some (Err e) ->
    (e = user_not_found username /\
     exists first after,
       graphql username first after = Resolved (mkResponse None))
    \/ (exists st msg first after,
          graphql username first after = Rejected st msg /\
          e = RequestError st msg).
Proof.
  induction fuel as [|fuel IH]; intros allPRs more cursor e;
    cbn [fetchLoop];
    destruct (more && Z.ltb (Z.of_nat (length allPRs)) limit);
    try discriminate.
  destruct (graphql username _ cursor) as [response|st msg] eqn:G.
  - destruct response as [[pullRequests|]]; cbn [user].
    + cbv zeta. destruct (negb _ || Z.leb _ _); [discriminate|]. apply IH.
    + intro H. injection H as <-. left. split; [reflexivity|]. eauto.
  - intro H. injection H as <-. right. eauto 10.
Qed.

(** X10: Every failure of [getUserPullRequests] is a [TRPCError]: NOT_FOUND,
    naming the login, when the provider answers a request with no user, and
    INTERNAL_SERVER_ERROR, carrying the provider's message, when the
    provider rejects a request; what earlier pages returned is dropped. *)
Theorem getUserPullRequests_errors
    (graphql : string -> Z -> option string -> Answer Response)
    (username : string) (options : option Options) (fuel : nat)
    (e : Error) :
  getUserPullRequests graphql username options fuel = Some (Err e) ->
  (e = TRPCError NOT_FOUND ("GitHub user '" ++ username ++ "' not found")
   /\ exists first after,
        graphql username first after = Resolved (mkResponse None))
  \/ (exists st msg first after,
        graphql username first after = Rejected st msg /\
        e = TRPCError INTERNAL_SERVER_ERROR
              ("Failed to fetch pull requests: " ++ msg)).
Proof.
  unfold getUserPullRequests.
  destruct (fetchLoop graphql username (limit_of options)
              (stateFilter_of options) fuel [] true None)
    as [[allPRs|e0]|] eqn:L; try discriminate.
  intro H. injection H as <-.
  destruct (fetchLoop_error _ _ _ _ _ _ _ _ _ L)
    as [[-> Hnone]|[st [msg [first [after [Hrej ->]]]]]].
  - left. split; [reflexivity|exact Hnone].
  - right. exists st, msg, first, after. split; [exact Hrej|reflexivity].
Qed.

Lemma getUserPullRequests_errors_witness :
  getUserPullRequests (pagedProvider (alice_has (merged_prs 3))) "bob" None 1
  = Some (Err (TRPCError NOT_FOUND "GitHub user 'bob' not found")).
Proof.
  destruct (getUserPullRequests (pagedProvider (alice_has (merged_prs 3)))
              "bob" None 1) as [[prs|e]|] eqn:E;
    [vm_compute in E; discriminate| |vm_compute in E; discriminate].
  destruct (getUserPullRequests_errors _ _ _ _ _ E)
    as [[-> _]|[st [msg [first [after [Hrej _]]]]]]; [reflexivity|].
  vm_compute in Hrej. discriminate.
Defined.

(** X11: A negative limit returns the empty list without a request, whatever
    the provider would answer, even for a login it does not know. *)
Theorem getUserPullRequests_negative_limit
    (graphql : string -> Z -> option string -> Answer Response)
    (username : string) (st : option StateFilter) (l : Z) (fuel : nat) :
  (l < 0)%Z ->
  getUserPullRequests graphql username (Some (mkOptions st (Some l))) fuel
  = Some (Ok []).
Proof.
  intro H. unfold getUserPullRequests.
  assert (E : limit_of (Some (mkOptions st (Some l))) = l).
  { simpl. destruct (Z.eqb_spec l 0); [lia|reflexivity]. }
  rewrite E, fetchLoop_no_limit by lia.
  unfold slice0. destruct (Z.ltb l 0); rewrite firstn_nil; reflexivity.
Qed.

Lemma getUserPullRequests_negative_limit_witness :
  getUserPullRequests (pagedProvider (alice_has (merged_prs 3))) "bob"
    (Some (mkOptions None (Some (-1)%Z))) 0 = Some (Ok []).
Proof.
  apply getUserPullRequests_negative_limit. reflexivity.
Defined.

(** The loop asks for 1 to 100 nodes and for nothing else. *)
Lemma fetchLoop_request_sizes
    (graphql graphql' : string -> Z -> option string -> Answer Response)
    (username : string) (limit : Z) (stateFilter : StateFilter) :
  (forall first after,
     (1 <= first <= 100)%Z ->
     graphql username first after = graphql' username first after) ->
  forall fuel allPRs more cursor,
    fetchLoop graphql username limit stateFilter fuel allPRs more cursor
    = fetchLoop graphql' username limit stateFilter fuel allPRs more cursor.
Proof.
  intro Hagree. induction fuel as [|fuel IH]; intros allPRs more cursor;
    cbn [fetchLoop]; [reflexivity|].
  destruct more; cbn [andb]; [|reflexivity].
  destruct (Z.ltb_spec (Z.of_nat (length allPRs)) limit) as [Hlt|Hge];
    [|reflexivity].
  rewrite Hagree by lia.
  destruct (graphql' username _ cursor) as [response|st msg]; [|reflexivity].
  destruct (user response) as [pullRequests|]; [|reflexivity].
  cbv zeta. destruct (negb _ || Z.leb _ _); [reflexivity|]. apply IH.
Qed.

(** X12: Every request is for the given login and for 1 to 100 nodes: what the
    method returns does not depend on how the provider would answer any
    other request. *)
Theorem getUserPullRequests_request_sizes
    (graphql graphql' : string -> Z -> option string -> Answer Response)
    (username : string) (options : option Options) (fuel : nat) :
  (forall first after,
     (1 <= first <= 100)%Z ->
     graphql username first after = graphql' username first after) ->
  getUserPullRequests graphql username options fuel
  = getUserPullRequests graphql' username options fuel.
Proof.
  intro Hagree. unfold getUserPullRequests.
  rewrite (fetchLoop_request_sizes graphql graphql' username _ _ Hagree).
  reflexivity.
Qed.

Lemma getUserPullRequests_request_sizes_witness :
  getUserPullRequests (pagedProvider (alice_has (merged_prs 250))) "alice"
    (Some (mkOptions (Some merged) (Some 230%Z))) 4
  = getUserPullRequests
      (strict_pages (pagedProvider (alice_has (merged_prs 250)))) "alice"
      (Some (mkOptions (Some merged) (Some 230%Z))) 4.
Proof.
  apply getUserPullRequests_request_sizes.
  intros first after H. unfold strict_pages.
  destruct (Z.leb_spec 1 first); [|lia].
  destruct (Z.leb_spec first 100); [reflexivity|lia].
Defined.

Lemma firstn_extend {A : Type} (n : nat) :
  forall (k : nat) (l : list A),
    firstn (k + length (firstn n (skipn k l))) l
    = firstn k l ++ firstn n (skipn k l).
Proof.
  induction k as [|k IH]; intro l.
  - simpl. rewrite <- (firstn_all (firstn n l)) at 2.
    rewrite firstn_firstn. f_equal.
    pose proof (firstn_le_length n l). lia.
  - destruct l as [|x l]; simpl.
    + rewrite firstn_nil. reflexivity.
    + f_equal. apply IH.
Qed.

Lemma matching_extend (stateFilter : StateFilter) (prs : list Node)
    (k n : nat) :
  matching stateFilter
    (firstn (k + length (firstn n (skipn k prs))) prs)
  = matching stateFilter (firstn k prs)
    ++ filter (keepPR stateFilter) (map formatPR (firstn n (skipn k prs))).
Proof.
  unfold matching. rewrite firstn_extend, map_app, filter_app. reflexivity.
Qed.

(** Against the paging provider the loop, entered after [k] nodes with
    what matched among them, ends after some [k'] nodes with what matched
    among those: it has filled the limit or seen every node. *)
Lemma fetchLoop_paged_result (known : string -> option (list Node))
    (username : string) (limit : Z) (stateFilter : StateFilter)
    (prs : list Node) :
  known username = Some prs ->
  forall fuel k cursor,
    cursor_offset cursor = k ->
    (Z.of_nat (length (matching stateFilter (firstn k prs)))
     <= Z.max limit 0)%Z ->
    (length prs - k < fuel)%nat ->
    exists k',
      fetchLoop (pagedProvider known) username limit stateFilter fuel
        (matching stateFilter (firstn k prs)) true cursor
      = Some (Ok (matching stateFilter (firstn k' prs)))
      /\ (Z.of_nat (length (matching stateFilter (firstn k' prs)))
          <= Z.max limit 0)%Z
      /\ ((limit <= Z.of_nat (length (matching stateFilter (firstn k' prs))))%Z
          \/ (length prs <= k')%nat).
Proof.
  intro Hk. induction fuel as [|fuel IH]; intros k cursor Hc Hlen Hf;
    [lia|].
  cbn [fetchLoop andb].
  set (acc := matching stateFilter (firstn k prs)) in *.
  destruct (Z.ltb_spec (Z.of_nat (length acc)) limit) as [Hlt|Hge].
  2:{ exists k. fold acc. auto. }
  unfold pagedProvider at 1. rewrite Hk, Hc.
  cbn [user pageInfo nodes hasNextPage endCursor].
  set (first := Z.min 100 (limit - Z.of_nat (length acc))).
  set (page := firstn (Z.to_nat first) (skipn k prs)).
  assert (Hacc : acc ++ filter (keepPR stateFilter) (map formatPR page)
                 = matching stateFilter (firstn (k + length page) prs)).
  { unfold acc, page. symmetry. apply matching_extend. }
  rewrite Hacc.
  assert (Hbound : (Z.of_nat (length (matching stateFilter
                                        (firstn (k + length page) prs)))
                    <= Z.max limit 0)%Z).
  { rewrite <- Hacc, length_app.
    pose proof (filter_length_le (keepPR stateFilter) (map formatPR page)).
    rewrite length_map in H.
    pose proof (firstn_le_length (Z.to_nat first) (skipn k prs)).
    fold page in H0. unfold first in H0. lia. }
  destruct (Nat.ltb_spec (k + length page) (length prs)) as [Hmore|Hend];
    cbn [negb orb].
  2:{ exists (k + length page)%nat. auto. }
  destruct (Z.leb_spec limit
              (Z.of_nat (length (matching stateFilter
                                   (firstn (k + length page) prs)))))
    as [Hfull|Hroom].
  { exists (k + length page)%nat. auto. }
  apply IH; [apply cursor_roundtrip|exact Hbound|].
  assert (Hpage : (1 <= length page)%nat).
  { unfold page. rewrite length_firstn, length_skipn.
    apply Nat.min_glb; [|lia]. unfold first. lia. }
  lia.
Qed.

(** X13: Against a provider that pages through the list of a user's pull
    requests, the method returns the first [limit] of those that pass the
    filter, formatted and in the provider's order (all of them when there
    are no more than [limit]), where [limit] is the limit in force. *)
Theorem getUserPullRequests_paged_result
    (known : string -> option (list Node)) (username : string)
    (options : option Options) (prs : list Node) :
  known username = Some prs ->
  getUserPullRequests (pagedProvider known) username options
    (enough_fuel known username)
  = Some (Ok (firstn (Z.to_nat (limit_of options))
                (matching (stateFilter_of options) prs))).
Proof.
  intro Hk. unfold getUserPullRequests, enough_fuel. rewrite Hk.
  set (L := limit_of options). set (f := stateFilter_of options).
  destruct (fetchLoop_paged_result known username L f prs Hk
              (S (length prs)) 0 None eq_refl)
    as [k' [Hrun [Hle Hstop]]]; [simpl; lia|lia|].
  change (matching f (firstn 0 prs)) with (@nil UserPullRequestData) in Hrun.
  rewrite Hrun. do 2 f_equal.
  set (out := matching f (firstn k' prs)) in *.
  assert (Hall : matching f prs
                 = out ++ filter (keepPR f) (map formatPR (skipn k' prs))).
  { unfold out, matching.
    rewrite <- filter_app, <- map_app, firstn_skipn. reflexivity. }
  unfold slice0. destruct (Z.ltb_spec L 0) as [Hneg|Hpos].
  - assert (out = []) as -> by (apply length_zero_iff_nil; lia).
    rewrite firstn_nil. replace (Z.to_nat L) with 0%nat by lia. reflexivity.
  - destruct Hstop as [Hfull|Hend].
    + assert (Hlen : length out = Z.to_nat L) by lia.
      rewrite Hall, <- Hlen, firstn_all, firstn_app, firstn_all, Nat.sub_diag.
      simpl. rewrite app_nil_r. reflexivity.
    + unfold out. rewrite (firstn_all2 prs) by exact Hend. reflexivity.
Qed.

Lemma getUserPullRequests_paged_result_witness :
  getUserPullRequests (pagedProvider (alice_has (merged_prs 250))) "alice"
    (Some (mkOptions (Some merged) (Some 230%Z)))
    (enough_fuel (alice_has (merged_prs 250)) "alice")
  = Some (Ok (firstn 230 (matching merged (merged_prs 250)))).
Proof.
  exact (getUserPullRequests_paged_result (alice_has (merged_prs 250))
           "alice" (Some (mkOptions (Some merged) (Some 230%Z)))
           (merged_prs 250) eq_refl).
Defined.

(** ** The contributors of a repository *)

Lemma seq_snoc_first (p k : nat) :
  Z.of_nat p :: map Z.of_nat (seq (S p) k) = map Z.of_nat (seq p (S k)).
Proof. reflexivity. Qed.

(** From page [p] on the loop makes at most [51 - p] requests, for
    consecutive pages, whatever the provider answers. *)
Lemma contributorsLoop_bounded
    (listContributors : string -> string -> Z -> Z -> Answer (list Contributor))
    (owner repo : string) :
  forall n p allContributors requests,
    (p + n = 51)%nat -> (1 <= n)%nat ->
    exists r k,
      (1 <= k <= n)%nat /\
      (forall fuel,
         (n <= fuel)%nat ->
         contributorsLoop listContributors owner repo fuel allContributors
           (Z.of_nat p) requests
         = Some (r, requests ++ map Z.of_nat (seq p k))) /\
      ((forall o r' pp pg data,
          listContributors o r' pp pg = Resolved data ->
          (length data <= 100)%nat) ->
       forall all',
         r = Ok all' ->
         (length all' <= length allContributors + 100 * k)%nat).
Proof.
  induction n as [|n IH]; intros p allContributors requests Hp Hn; [lia|].
  destruct (listContributors owner repo 100%Z (Z.of_nat p))
    as [data|st msg] eqn:L.
  2:{ exists (Err (RequestError st msg)), 1%nat. split; [lia|]. split.
      - intros [|fuel] Hf; [lia|]. cbn [contributorsLoop]. rewrite L.
        reflexivity.
      - intros _ all' H. discriminate. }
  assert (Hstop : exists r k,
             r = Ok (allContributors ++ data) /\ k = 1%nat /\
             (1 <= k <= S n)%nat /\
             ((forall o r' pp pg data0,
                 listContributors o r' pp pg = Resolved data0 ->
                 (length data0 <= 100)%nat) ->
              forall all',
                r = Ok all' ->
                (length all' <= length allContributors + 100 * k)%nat)).
  { exists (Ok (allContributors ++ data)), 1%nat.
    split; [reflexivity|]. split; [reflexivity|]. split; [lia|].
    intros Hsize all' H. injection H as <-. rewrite length_app.
    pose proof (Hsize _ _ _ _ _ L). lia. }
  destruct (Z.ltb_spec 50 (Z.of_nat p + 1)) as [Hlast|Hnot].
  { destruct Hstop as [r [k [-> [-> [Hk Hlen]]]]].
    exists (Ok (allContributors ++ data)), 1%nat. split; [lia|].
    split; [|exact Hlen].
    intros [|fuel] Hf; [lia|]. cbn [contributorsLoop]. rewrite L. cbv zeta.
    destruct (Z.ltb_spec 50 (Z.of_nat p + 1)); [reflexivity|lia]. }
  destruct (Nat.eqb (length data) 100) eqn:Hfull.
  2:{ destruct Hstop as [r [k [-> [-> [Hk Hlen]]]]].
      exists (Ok (allContributors ++ data)), 1%nat. split; [lia|].
      split; [|exact Hlen].
      intros [|fuel] Hf; [lia|]. cbn [contributorsLoop]. rewrite L. cbv zeta.
      destruct (Z.ltb_spec 50 (Z.of_nat p + 1)); [lia|].
      rewrite Hfull. reflexivity. }
  destruct (IH (S p) (allContributors ++ data) (requests ++ [Z.of_nat p]))
    as [r [k [Hk [Hrun Hlen]]]]; [lia|lia|].
  exists r, (S k). split; [lia|]. split.
  - intros [|fuel] Hf; [lia|]. cbn [contributorsLoop]. rewrite L. cbv zeta.
    destruct (Z.ltb_spec 50 (Z.of_nat p + 1)); [lia|]. rewrite Hfull.
    replace (Z.of_nat p + 1)%Z with (Z.of_nat (S p)) by lia.
    rewrite Hrun by lia. rewrite <- app_assoc. reflexivity.
  - intros Hsize all' H. specialize (Hlen Hsize all' H).
    rewrite length_app in Hlen. apply Nat.eqb_eq in Hfull. lia.
Qed.

(** X14: The contributors listing always ends, after at most 50 requests: it
    asks for pages 1, 2, ... in order, 100 entries each, so 50 units of
    fuel always suffice and more change nothing; and when the provider
    keeps to the page size, at most 5000 contributors are returned. *)
Theorem getContributors_bounded
    (cached : CacheKey -> option (list ContributorData))
    (listContributors : string -> string -> Z -> Z -> Answer (list Contributor))
    (identifier : string) :
  exists out k,
    (forall fuel,
       (50 <= fuel)%nat ->
       getContributors cached listContributors identifier fuel = Some out) /\
    (k <= 50)%nat /\ requested out = pages k /\
    ((forall o r pp pg data,
        listContributors o r pp pg = Resolved data ->
        (length data <= 100)%nat) ->
     cached (mkCacheKey "github" "contributors" identifier) = None ->
     forall v,
       outcome_of out = Ok v ->
       (length v <= 100 * k)%nat /\ (length v <= 5000)%nat).
Proof.
  unfold getContributors, createCacheKey.
  destruct (parseRepoIdentifier identifier) as [ri|e].
  2:{ exists (mkListing (Err e) [] None), 0%nat.
      repeat split; auto; try lia; simpl in *; discriminate. }
  destruct (cached _) as [v|] eqn:C.
  { exists (mkListing (Ok v) [] None), 0%nat.
    repeat split; auto; try lia; discriminate. }
  destruct (contributorsLoop_bounded listContributors (ri_owner ri)
              (ri_repo ri) 50 1 [] [] eq_refl ltac:(lia))
    as [r [k [Hk [Hrun Hlen]]]].
  destruct r as [allContributors|e].
  - exists (mkListing (Ok (map formatContributor allContributors))
              (pages k)
              (Some (mkCacheKey "github" "contributors" identifier,
                     (60 * 60)%Z))), k.
    split; [|split; [lia|split; [reflexivity|]]].
    + intros fuel Hf. change 1%Z with (Z.of_nat 1).
      rewrite (Hrun fuel Hf). reflexivity.
    + intros Hsize _ v Hv. simpl in Hv. injection Hv as <-.
      rewrite length_map. specialize (Hlen Hsize _ eq_refl).
      simpl in Hlen. lia.
  - exists (mkListing (Err e) (pages k) None), k.
    split; [|split; [lia|split; [reflexivity|]]].
    + intros fuel Hf. change 1%Z with (Z.of_nat 1).
      rewrite (Hrun fuel Hf). reflexivity.
    + intros _ _ v Hv. discriminate.
Qed.

(** Against the paging provider, from page [p] with the first
    [100 * (p - 1)] contributors in hand, the loop returns the first 5000
    contributors. *)
Lemma contributorsLoop_paged
    (known : string -> string -> option (list Contributor))
    (owner repo : string) (contributors : list Contributor) :
  known owner repo = Some contributors ->
  forall n p requests,
    (p + n = 51)%nat -> (1 <= n)%nat -> (1 <= p)%nat ->
    (100 * (p - 1) <= length contributors)%nat ->
    exists k,
      (1 <= k <= n)%nat /\
      (100 * (p + k - 2) <= length contributors)%nat /\
      ((p + k = 51)%nat \/ (length contributors < 100 * (p + k - 1))%nat) /\
      contributorsLoop (pagedContributors known) owner repo n
        (firstn (100 * (p - 1)) contributors) (Z.of_nat p) requests
      = Some (Ok (firstn 5000 contributors),
              requests ++ map Z.of_nat (seq p k)).
Proof.
  intro Hk. induction n as [|n IH]; intros p requests Hp Hn Hp1 Hhave; [lia|].
  cbn [contributorsLoop]. unfold pagedContributors at 1. rewrite Hk.
  replace (Z.to_nat (100 * (Z.of_nat p - 1))) with (100 * (p - 1))%nat by lia.
  change (Z.to_nat 100) with 100%nat. cbv zeta.
  remember (100 * (p - 1))%nat as have eqn:Hhave_eq.
  set (data := firstn 100 (skipn have contributors)).
  assert (Hdata : length data = Nat.min 100 (length contributors - have)).
  { unfold data. rewrite length_firstn, length_skipn. reflexivity. }
  assert (Hacc : firstn have contributors ++ data
                 = firstn (have + length data) contributors).
  { unfold data. symmetry. apply firstn_extend. }
  rewrite Hacc.
  assert (Hshort : (length data < 100)%nat ->
                   firstn (have + length data) contributors
                   = firstn 5000 contributors).
  { intro Hlt. rewrite !firstn_all2 by lia. reflexivity. }
  destruct (Z.ltb_spec 50 (Z.of_nat p + 1)) as [Hlast|Hnot].
  { exists 1%nat. split; [lia|]. split; [lia|]. split; [left; lia|].
    destruct (Nat.lt_ge_cases (length data) 100) as [Hlt|Hge].
    - rewrite (Hshort Hlt). reflexivity.
    - replace (have + length data)%nat with 5000%nat by lia. reflexivity. }
  destruct (Nat.eqb_spec (length data) 100) as [Hfull|Hpart].
  2:{ exists 1%nat. split; [lia|]. split; [lia|]. split; [right; lia|].
      rewrite Hshort by lia. reflexivity. }
  replace (have + length data)%nat with (100 * (S p - 1))%nat by lia.
  replace (Z.of_nat p + 1)%Z with (Z.of_nat (S p)) by lia.
  destruct (IH (S p) (requests ++ [Z.of_nat p])) as [k [Hk1 [Hk2 [Hk3 Hrun]]]];
    [lia|lia|lia|lia|].
  exists (S k). split; [lia|]. split; [lia|].
  split; [destruct Hk3; [left|right]; lia|].
  rewrite Hrun, <- app_assoc. reflexivity.
Qed.

(** X15: Against a provider that serves the contributors of a repository in
    pages, an uncached listing returns the first 5000 of them, formatted
    and in order: all of them when there are fewer than 5000, and a silent
    cut at 5000 otherwise. It asks for pages 1 to [k], where page [k] is
    page 50 or the first page that is not full (an empty one when the
    number of contributors is a multiple of 100), and stores the result for
    3600 seconds under the key of the whole identifier. *)
Theorem getContributors_paged
    (cached : CacheKey -> option (list ContributorData))
    (known : string -> string -> option (list Contributor))
    (identifier : string) (ri : RepoIdentifier)
    (contributors : list Contributor) :
  parseRepoIdentifier identifier = Ok ri ->
  cached (mkCacheKey "github" "contributors" identifier) = None ->
  known (ri_owner ri) (ri_repo ri) = Some contributors ->
  exists k,
    (1 <= k <= 50)%nat /\
    (100 * (k - 1) <= length contributors)%nat /\
    (k = 50%nat \/ (length contributors < 100 * k)%nat) /\
    getContributors cached (pagedContributors known) identifier 50
    = Some (mkListing
              (Ok (map formatContributor (firstn 5000 contributors)))
              (pages k)
              (Some (mkCacheKey "github" "contributors" identifier, 3600%Z))).
Proof.
  intros Hp Hc Hk. unfold getContributors, createCacheKey. rewrite Hp, Hc.
  destruct (contributorsLoop_paged known (ri_owner ri) (ri_repo ri)
              contributors Hk 50 1 [] eq_refl ltac:(lia) ltac:(lia)
              ltac:(simpl; lia))
    as [k [Hk1 [Hk2 [Hk3 Hrun]]]].
  exists k. split; [lia|]. split; [lia|].
  split; [destruct Hk3; [left|right]; lia|].
  change (firstn (100 * (1 - 1)) contributors) with (@nil Contributor) in Hrun.
  change 1%Z with (Z.of_nat 1). rewrite Hrun. reflexivity.
Qed.

Lemma getContributors_paged_witness :
  exists k,
    getContributors (fun _ => None)
      (pagedContributors (acme_widgets_has (some_contributors 200)))
      "acme/widgets" 50
    = Some (mkListing
              (Ok (map formatContributor (some_contributors 200)))
              (pages k)
              (Some (mkCacheKey "github" "contributors" "acme/widgets",
                     3600%Z)))
    /\ k = 3%nat.
Proof.
  destruct (getContributors_paged (fun _ => None)
              (acme_widgets_has (some_contributors 200)) "acme/widgets"
              (mkRepoIdentifier "acme" "widgets") (some_contributors 200)
              eq_refl eq_refl eq_refl) as [k [Hk1 [Hk2 [Hk3 Hrun]]]].
  exists k. split.
  - rewrite Hrun. rewrite (firstn_all2 (some_contributors 200)); [reflexivity|].
    unfold some_contributors. rewrite length_map, length_seq. lia.
  - unfold some_contributors in Hk2, Hk3.
    rewrite length_map, length_seq in Hk2, Hk3. lia.
Defined.

(** ** The details of a user *)

(** X16: [getUserDetails] never lets a provider error through: on a miss of
    the cache a rejection with status 404 becomes NOT_FOUND, naming the
    login, and any other rejection becomes INTERNAL_SERVER_ERROR, carrying
    the provider's message, and nothing is stored; a hit of the cache is
    returned without asking the provider, so it cannot fail; a response is
    returned with the provider name github and stored for 1800 seconds
    under the key (github, user, login). *)
Theorem getUserDetails_outcomes (cached : CacheKey -> option UserData)
    (getByUsername : string -> Answer UserResponse) (username : string) :
  let key := mkCacheKey "github" "user" username in
  let out := getUserDetails cached getByUsername username in
  (forall e,
     outcome_of out = Err e ->
     cached key = None /\ stored out = None /\
     exists status message,
       getByUsername username = Rejected status message /\
       ((status = 404%Z /\
         e = TRPCError NOT_FOUND
               ("GitHub user '" ++ username ++ "' not found")%string)
        \/ (status <> 404%Z /\
            e = TRPCError INTERNAL_SERVER_ERROR
                  ("Failed to fetch GitHub user details: " ++ message)%string)))
  /\ (forall v,
        cached key = Some v -> out = mkListing (Ok v) [] None)
  /\ (forall v,
        cached key = None -> outcome_of out = Ok v ->
        exists data,
          getByUsername username = Resolved data /\
          v = formatUser data /\ ud_provider v = "github" /\
          ud_login v = u_login data /\ ud_id v = u_id data /\
          requested out = [1%Z] /\ stored out = Some (key, 1800%Z)).
Proof.
  cbv zeta. unfold getUserDetails, createCacheKey, userError.
  destruct (cached _) as [v0|] eqn:C.
  - split; [discriminate|]. split; [|discriminate].
    intros v H. injection H as <-. reflexivity.
  - destruct (getByUsername username) as [data|status message] eqn:G; simpl.
    + split; [discriminate|]. split; [discriminate|].
      intros v _ H. injection H as <-. exists data. repeat split.
    + split; [|split; discriminate].
      intros e H. injection H as <-. split; [reflexivity|].
      split; [reflexivity|]. exists status, message. split; [reflexivity|].
      destruct (Z.eqb_spec status 404); [left|right]; auto.
Qed.

(** ** Canonical identifiers *)

(** X17: Whatever identifier parses, its owner and repository joined by a
    ['/'] parse to the same owner and repository: the parser is idempotent
    on the canonical form, which is the form the repository URL of a
    success row is built from. *)
Theorem parseRepoIdentifier_canonical (identifier : string)
    (ri : RepoIdentifier) :
  parseRepoIdentifier identifier = Ok ri ->
  parseRepoIdentifier (ri_owner ri ++ "/" ++ ri_repo ri) = Ok ri
  /\ has_slash (ri_owner ri) = false /\ has_slash (ri_repo ri) = false.
Proof.
  intro H. apply parse_segments in H. destruct H as [more [Hs [Ho Hr]]].
  pose proof (split_segments identifier) as Hf. rewrite Hs in Hf.
  inversion Hf as [|x l So Hf']; subst.
  inversion Hf' as [|x l Sr _]; subst.
  split; [|auto]. apply parse_segments. exists [].
  rewrite (split_segment _ _ So), (split_no_slash _ Sr). auto.
Qed.

Lemma parseRepoIdentifier_canonical_witness :
  parseRepoIdentifier ("a" ++ "/" ++ "b") = Ok (mkRepoIdentifier "a" "b").
Proof.
  exact (proj1 (parseRepoIdentifier_canonical "a/b/c"
                  (mkRepoIdentifier "a" "b") eq_refl)).
Defined.

Lemma contributorsLoop_error
    (listContributors : string -> string -> Z -> Z -> Answer (list Contributor))
    (owner repo : string) (fuel : nat) :
  forall allContributors page requests e requests',
    contributorsLoop listContributors owner repo fuel allContributors page
      requests = Some (Err e, requests') ->
    exists status message last earlier,
      e = RequestError status message /\
      listContributors owner repo 100%Z last = Rejected status message /\
      requests' = earlier ++ [last].
Proof.
  induction fuel as [|fuel IH];
    intros allContributors page requests e requests'; cbn [contributorsLoop];
    [discriminate|].
  destruct (listContributors owner repo 100%Z page) as [data|st msg] eqn:L.
  - cbv zeta. destruct (Z.ltb 50 (page + 1)); [discriminate|].
    destruct (Nat.eqb (length data) 100); [apply IH|discriminate].
  - intro H. injection H as <- <-. eauto 10.
Qed.

(** X18: A listing of contributors that fails stores nothing in the cache and
    returns none of the pages it had fetched: it fails either on the
    identifier, before any request, or with the rejection of the last page
    it asked for. *)
Theorem getContributors_failure
    (cached : CacheKey -> option (list ContributorData))
    (listContributors : string -> string -> Z -> Z -> Answer (list Contributor))
    (identifier : string) (fuel : nat)
    (out : Listing (list ContributorData)) (e : Error) :
  getContributors cached listContributors identifier fuel = Some out ->
  outcome_of out = Err e ->
  stored out = None /\
  ((e = invalid_format /\ requested out = [])
   \/ exists ri status message last earlier,
        parseRepoIdentifier identifier = Ok ri /\
        e = RequestError status message /\
        listContributors (ri_owner ri) (ri_repo ri) 100%Z last
        = Rejected status message /\
        requested out = earlier ++ [last]).
Proof.
  unfold getContributors.
  destruct (parseRepoIdentifier identifier) as [ri|e0] eqn:P.
  2:{ intro H. injection H as <-. simpl. intro H. injection H as <-.
      split; [reflexivity|]. left. split; [|reflexivity].
      exact (parse_error _ _ P). }
  destruct (cached _) as [v|].
  { intro H. injection H as <-. discriminate. }
  destruct (contributorsLoop listContributors (ri_owner ri) (ri_repo ri) fuel
              [] 1 []) as [[[allContributors|e0] requests]|] eqn:L;
    try discriminate.
  - intro H. injection H as <-. discriminate.
  - intro H. injection H as <-. simpl. intro H. injection H as <-.
    split; [reflexivity|]. right.
    destruct (contributorsLoop_error _ _ _ _ _ _ _ _ _ L)
      as [st [msg [last [earlier [-> [Hrej ->]]]]]].
    exists ri, st, msg, last, earlier. auto.
Qed.

Lemma getContributors_failure_witness :
  exists out,
    getContributors (fun _ => None)
      (pagedContributors (acme_widgets_has (some_contributors 3)))
      "acme/gadgets" 50 = Some out
    /\ stored out = None.
Proof.
  destruct (getContributors (fun _ => None)
              (pagedContributors (acme_widgets_has (some_contributors 3)))
              "acme/gadgets" 50) as [out|] eqn:E;
    [|vm_compute in E; discriminate].
  exists out. split; [reflexivity|].
  assert (He : outcome_of out = Err (RequestError 404 "Not Found")).
  { vm_compute in E. injection E as <-. reflexivity. }
  exact (proj1 (getContributors_failure _ _ _ _ _ _ E He)).
Defined.
